(** * pc4_etl: the MovieLens CSV-to-NDJSON pipeline, embedded in Rocq

A shallow embedding of the loaders (internal/loaders), the processors
(internal/processors), the TMDB client (internal/external) and the
identifier mapper (internal/mappers), and the properties of the
join-and-enrichment pipeline proved about them.

Go values are embedded as follows.
- [int], [int64]: [Z], kept inside the 64-bit range by the functions
  that produce them ([wrap64] where the code does arithmetic).
- [float64]: Rocq's primitive binary64 floats ([PrimFloat.float]).
- [string]: [string], a sequence of bytes.
- [map[K]V]: [gmap K V]; a map used as a set: [gset K].
- slices: lists.
- the records a [csv.Reader] yields: a list of [csvRead]. *)

From Stdlib Require Import ZArith Ascii String List DecimalString Floats.
From stdpp Require Import gmap strings list fin_maps sorting.

Local Open Scope Z_scope.
Set Warnings "-clear-no-such-hyp".

(** ** Machine integers *)

Definition maxInt64 : Z := 9223372036854775807.
Definition minInt64 : Z := -9223372036854775808.
Definition maxUint64 : Z := 18446744073709551615.

(** Two's complement wrap-around of a 64-bit signed integer. *)
Definition wrap64 (z : Z) : Z := (z + 2 ^ 63) mod 2 ^ 64 - 2 ^ 63.

(** ** Bytes and strings (Go's packages strings and unicode) *)

Module GoStrings.

Definition code (c : ascii) : Z := Z.of_N (N_of_ascii c).

Definition bytes (s : string) : list ascii := list_ascii_of_string s.
Definition str (l : list ascii) : string := string_of_list_ascii l.

(** strings.asciiSpace: '\t', '\n', '\v', '\f', '\r', ' '. *)
Definition asciiSpace (c : ascii) : bool :=
  match code c with
  | 9 | 10 | 11 | 12 | 13 | 32 => true
  | _ => false
  end.

(** unicode.IsSpace on the runes that take two bytes in UTF-8:
    U+0085 (C2 85) and U+00A0 (C2 A0). *)
Definition space2 (a b : ascii) : bool :=
  (code a =? 194) && ((code b =? 133) || (code b =? 160)).

(** unicode.IsSpace on the runes that take three bytes in UTF-8:
    U+1680, U+2000..U+200A, U+2028, U+2029, U+202F, U+205F, U+3000. *)
Definition space3 (a b c : ascii) : bool :=
  ((code a =? 225) && (code b =? 154) && (code c =? 128))
  || ((code a =? 226) && (code b =? 128)
      && (((128 <=? code c) && (code c <=? 138))
          || (code c =? 168) || (code c =? 169) || (code c =? 175)))
  || ((code a =? 226) && (code b =? 129) && (code c =? 159))
  || ((code a =? 227) && (code b =? 128) && (code c =? 128)).

(** strings.TrimLeftFunc(s, unicode.IsSpace): drops the white-space runes
    the string starts with. *)
Fixpoint trimLeftSpace (l : list ascii) : list ascii :=
  match l with
  | [] => []
  | a :: t =>
      if asciiSpace a then trimLeftSpace t
      else match t with
           | [] => l
           | b :: t2 =>
               if space2 a b then trimLeftSpace t2
               else match t2 with
                    | [] => l
                    | c :: t3 => if space3 a b c then trimLeftSpace t3 else l
                    end
           end
  end.

(** strings.TrimRightFunc(s, unicode.IsSpace), on the reversed bytes:
    utf8.DecodeLastRune finds a white-space rune exactly when the bytes
    end with its encoding. *)
Fixpoint trimLeftSpaceRev (l : list ascii) : list ascii :=
  match l with
  | [] => []
  | a :: t =>
      if asciiSpace a then trimLeftSpaceRev t
      else match t with
           | [] => l
           | b :: t2 =>
               if space2 b a then trimLeftSpaceRev t2
               else match t2 with
                    | [] => l
                    | c :: t3 => if space3 c b a then trimLeftSpaceRev t3 else l
                    end
           end
  end.

Definition trimRightSpace (l : list ascii) : list ascii :=
  reverse (trimLeftSpaceRev (reverse l)).

(** strings.TrimSpace *)
Definition TrimSpace (s : string) : string :=
  str (trimRightSpace (trimLeftSpace (bytes s))).

Fixpoint dropWhile (p : ascii -> bool) (l : list ascii) : list ascii :=
  match l with
  | [] => []
  | a :: t => if p a then dropWhile p t else l
  end.

Definition inCutset (cutset : list ascii) (c : ascii) : bool :=
  bool_decide (c ∈ cutset).

(** strings.Trim(s, cutset) for a cutset of ASCII bytes: trimRightASCII,
    then trimLeftASCII. *)
Definition Trim (s : string) (cutset : string) : string :=
  let cs := bytes cutset in
  str (dropWhile (inCutset cs) (reverse (dropWhile (inCutset cs) (reverse (bytes s))))).

Definition isUpperASCII (c : ascii) : bool := (65 <=? code c) && (code c <=? 90).
Definition isASCII (c : ascii) : bool := code c <? 128.

Definition lowerByte (c : ascii) : ascii :=
  if isUpperASCII c then ascii_of_N (Z.to_N (code c + 32)) else c.

(** strings.LastIndex(s, sep) for a one-byte separator; -1 when absent. *)
Fixpoint lastIndexByteFrom (i : Z) (c : ascii) (l : list ascii) (found : Z) : Z :=
  match l with
  | [] => found
  | a :: t => lastIndexByteFrom (i + 1) c t (if Ascii.eqb a c then i else found)
  end.

Definition LastIndexByte (s : string) (c : ascii) : Z :=
  lastIndexByteFrom 0 c (bytes s) (-1).

(** The slice expression s[:n]. *)
Definition prefixTo (s : string) (n : Z) : string :=
  str (take (Z.to_nat n) (bytes s)).

End GoStrings.

(** ** Package strconv *)

Module Strconv.
Import GoStrings.

Inductive numError := ErrSyntax | ErrRange.

Definition digitVal (c : ascii) : option Z :=
  if (48 <=? code c) && (code c <=? 57) then Some (code c - 48) else None.

(** The digit loop of strconv.ParseUint(s, 10, 64): a byte that is no
    decimal digit is a syntax error with value 0; a value past 2^64-1 is a
    range error with value 2^64-1, returned at once. *)
Fixpoint parseUintFrom (n : Z) (l : list ascii) : Z * option numError :=
  match l with
  | [] => (n, None)
  | c :: t =>
      match digitVal c with
      | None => (0, Some ErrSyntax)
      | Some d =>
          if maxUint64 <? n * 10 + d then (maxUint64, Some ErrRange)
          else parseUintFrom (n * 10 + d) t
      end
  end.

Definition parseUint (l : list ascii) : Z * option numError :=
  match l with
  | [] => (0, Some ErrSyntax)
  | _ => parseUintFrom 0 l
  end.

(** strconv.ParseInt(s, 10, 64): the value and the error. On a range
    error the value is the nearest bound of int64. *)
Definition ParseInt (s : string) : Z * option numError :=
  match bytes s with
  | [] => (0, Some ErrSyntax)
  | c :: t =>
      let neg := Ascii.eqb c "-" in
      let digits := if Ascii.eqb c "+" || Ascii.eqb c "-" then t else c :: t in
      match parseUint digits with
      | (_, Some ErrSyntax) => (0, Some ErrSyntax)
      | (un, _) =>
          if negb neg && (2 ^ 63 <=? un) then (maxInt64, Some ErrRange)
          else if neg && (2 ^ 63 <? un) then (minInt64, Some ErrRange)
          else (if neg then - un else un, None)
      end
  end.

(** strconv.Atoi on a 64-bit platform: its fast path for short strings
    returns what ParseInt(s, 10, 0) returns. *)
Definition Atoi (s : string) : Z * option numError := ParseInt s.

(** fmt's %d verb. *)
Definition formatInt (z : Z) : string := NilZero.string_of_int (Z.to_int z).

End Strconv.

(** ** Package regexp: the two expressions the pipeline compiles *)

Module Regexp.
Import GoStrings.

(** RE2's \s: [\t\n\f\r ]. *)
Definition reSpace (c : ascii) : bool :=
  match code c with
  | 9 | 10 | 12 | 13 | 32 => true
  | _ => false
  end.

(** RE2's \d: [0-9]. *)
Definition reDigit (c : ascii) : bool := (48 <=? code c) && (code c <=? 57).

(** A match of  \((\d{4})\)\s*$  that starts at the head of [l]: the
    text of group 1. *)
Definition yearReMatchHere (l : list ascii) : option (list ascii) :=
  match l with
  | p :: d1 :: d2 :: d3 :: d4 :: q :: rest =>
      if Ascii.eqb p "(" && reDigit d1 && reDigit d2 && reDigit d3 && reDigit d4
         && Ascii.eqb q ")" && forallb reSpace rest
      then Some [d1; d2; d3; d4] else None
  | _ => None
  end.

(** The leftmost match. *)
Fixpoint yearReFind (l : list ascii) : option (list ascii * list ascii) :=
  match yearReMatchHere l with
  | Some g => Some (l, g)
  | None => match l with
            | [] => None
            | _ :: t => yearReFind t
            end
  end.

(** yearRe.FindStringSubmatch for
    var yearRe = regexp.MustCompile(`\((\d{4})\)\s*$`):
    nil without a match, else the match and group 1. *)
Definition yearRe (s : string) : list string :=
  match yearReFind (bytes s) with
  | Some (whole, g) => [str whole; str g]
  | None => []
  end.

(** regexp.MustCompile(`\s+`).ReplaceAllString(s, " "): every maximal run
    of \s bytes becomes one space. [inRun] says that the byte before was
    part of a run. *)
Fixpoint collapseSpace (inRun : bool) (l : list ascii) : list ascii :=
  match l with
  | [] => []
  | a :: t =>
      if reSpace a
      then (if inRun then collapseSpace true t else " "%char :: collapseSpace true t)
      else a :: collapseSpace false t
  end.

Definition spaceRe_ReplaceAllString (s : string) : string :=
  str (collapseSpace false (bytes s)).

End Regexp.

(** ** float64 *)

Module Float64.

Definition float64 : Set := PrimFloat.float.

Definition zero : float64 := PrimFloat.zero.
Definition add (x y : float64) : float64 := PrimFloat.add x y.
Definition div (x y : float64) : float64 := PrimFloat.div x y.

(** x > y and x >= y: false as soon as one side is a NaN. *)
Definition gt (x y : float64) : bool := PrimFloat.ltb y x.
Definition ge (x y : float64) : bool := PrimFloat.leb y x.

(** The conversion float64(n) of an integer: n rounded to the nearest
    binary64, ties to even. *)
Definition of_int (n : Z) : float64 := SF2Prim (binary_normalize prec emax n 0 false).

(** Neither a NaN nor an infinity: !math.IsNaN(x) && !math.IsInf(x, 0). *)
Definition isFinite (x : float64) : bool := PrimFloat.is_finite x.

End Float64.

(** ** Package time *)

Module Time.
Import Strconv.

(** The civil date of a day count since 1970-01-01 (proleptic Gregorian
    calendar): year, month, day. *)
Definition civilFromDays (days : Z) : Z * Z * Z :=
  let z := days + 719468 in
  let era := z / 146097 in
  let doe := z - era * 146097 in
  let yoe := (doe - doe / 1460 + doe / 36524 - doe / 146096) / 365 in
  let doy := doe - (365 * yoe + yoe / 4 - yoe / 100) in
  let mp := (5 * doy + 2) / 153 in
  let d := doy - (153 * mp + 2) / 5 + 1 in
  let m := if mp <? 10 then mp + 3 else mp - 9 in
  let y := yoe + era * 400 + (if m <=? 2 then 1 else 0) in
  (y, m, d).

(** A non-negative number in decimal, padded with zeros to [width] digits
    (appendInt of package time). *)
Definition pad (width : nat) (n : Z) : string :=
  let digits := formatInt n in
  String.append (string_of_list_ascii (replicate (width - String.length digits) "0"%char)) digits.

(** time.Unix(ts, 0).UTC().Format(time.RFC3339) for a time after the
    epoch: "2006-01-02T15:04:05Z". *)
Definition UnixUTCFormatRFC3339 (ts : Z) : string :=
  let days := ts / 86400 in
  let secs := ts mod 86400 in
  let '(y, m, d) := civilFromDays days in
  pad 4 y +:+ "-" +:+ pad 2 m +:+ "-" +:+ pad 2 d +:+ "T"
    +:+ pad 2 (secs / 3600) +:+ ":" +:+ pad 2 (secs mod 3600 / 60) +:+ ":"
    +:+ pad 2 (secs mod 60) +:+ "Z".

End Time.

(** ** internal/models *)

Module Models.
Import Float64.

Record GenomeTag := {
  GenomeTag_Tag : string;
  GenomeTag_Relevance : float64 }.

Record UserTagWithFrequency := {
  Tag : string;
  Frequency : Z }.

Record RatingStats := {
  Average : float64;
  Count : Z;
  LastRatedAt : string }.

Record Neighbor := {
  Neighbor_MovieID : Z;
  Neighbor_IIdx : Z;
  Sim : float64 }.

Record SimilarityDoc := {
  ID : string;
  MovieID : Z;
  IIdx : Z;
  Metric : string;
  K : Z;
  Neighbors : list Neighbor;
  UpdatedAt : string }.

Record CastMember := {
  CastMember_Name : string;
  ProfileURL : string }.

Record ExternalData := {
  PosterURL : string;
  Overview : string;
  Cast : list CastMember;
  Director : string;
  Runtime : Z;
  Budget : Z;
  Revenue : Z;
  TMDBFetched : bool }.

Record TMDBMovieResponse := {
  TMDB_ID : Z;
  TMDB_Title : string;
  TMDB_Overview : string;
  TMDB_PosterPath : string;
  TMDB_Runtime : Z;
  TMDB_Budget : Z;
  TMDB_Revenue : Z;
  TMDB_ReleaseDate : string }.

Record TMDBCast := {
  Cast_Name : string;
  Cast_Character : string;
  Cast_Order : Z;
  Cast_ProfilePath : string }.

Record TMDBCrew := {
  Crew_Name : string;
  Crew_Job : string }.

Record TMDBCreditsResponse := {
  Credits_Cast : list TMDBCast;
  Credits_Crew : list TMDBCrew }.

End Models.

(** ** Package sort *)

Module Sort.

Section Contract.
Context {A : Type} (less : A -> A -> bool).

(** [less] is a strict weak ordering of the elements of [l]. *)
Definition strictWeakOn (l : list A) : Prop :=
  (forall x, x ∈ l -> less x x = false)
  /\ (forall x y z, x ∈ l -> y ∈ l -> z ∈ l ->
        less x y = true -> less y z = true -> less x z = true)
  /\ (forall x y z, x ∈ l -> y ∈ l -> z ∈ l ->
        less x y = false -> less y z = false -> less x z = false).

(** No element is less than one that stands before it. *)
Definition sortedBy (l : list A) : Prop :=
  StronglySorted (fun x y => less y x = false) l.

(** The inner loop of insertionSortLessFunc: the new element moves
    towards the front while it is less than its neighbour. [rp] is the
    sorted part, last element first. *)
Fixpoint bubble (x : A) (rp : list A) : list A :=
  match rp with
  | [] => [x]
  | y :: rp' => if less x y then y :: bubble x rp' else x :: rp
  end.

(** insertionSortLessFunc, which sort.Slice runs on slices of at most
    12 elements. *)
Definition insertionSort (l : list A) : list A :=
  reverse (foldl (fun rp x => bubble x rp) [] l).
End Contract.

(** An implementation of sort.Slice(x, less): what it makes of a slice. *)
Class SliceSorter := {
  Slice : forall {A : Type}, (A -> A -> bool) -> list A -> list A }.

(** The contract of sort.Slice: the slice is rearranged, and it ends up
    sorted when [less] is a strict weak ordering of its elements. The sort
    is not stable, and which of the sorted orders it picks is left to the
    implementation. *)
Definition SliceContract (sorter : SliceSorter) : Prop :=
  (forall A (less : A -> A -> bool) l, Slice less l ≡ₚ l)
  /\ (forall A (less : A -> A -> bool) l,
        strictWeakOn less l -> sortedBy less (Slice less l)).

End Sort.

(** ** Package encoding/csv *)

(** What one call of r.Read() returns before io.EOF: a record, or an error
    (a malformed line; the reader goes on with the next line). *)
Inductive csvRead :=
| ReadErr
| ReadRec (rec : list string).

(** rec[i], read only where the code has checked len(rec). *)
Definition field (rec : list string) (i : nat) : string := default ""%string (rec !! i).

(** ** internal/loaders *)

Module Loaders.
Import GoStrings Strconv Regexp Float64 Models Sort.

Section Loaders.
(** strconv.ParseFloat(s, 64): the value and the error, as the standard
    library computes them. *)
Variable ParseFloat : string -> float64 * option numError.
(** strings.Map(unicode.ToLower, s), the path strings.ToLower takes for
    a string with a byte outside ASCII (it needs Unicode's case
    tables). *)
Variable mapToLower : string -> string.
Context {sorter : SliceSorter}.

(** One turn of the loop every loader runs: a read error and a record of
    fewer than [minFields] fields are passed over ([continue]). *)
Definition rowStep {St : Type} (step : St -> list string -> St) (minFields : nat)
    (st : St) (r : csvRead) : St :=
  match r with
  | ReadErr => st
  | ReadRec rec => if (length rec <? minFields)%nat then st else step st rec
  end.

(** The loop, after the header has been skipped; [None] when reading the
    header fails. *)
Definition scan {St : Type} (step : St -> list string -> St) (minFields : nat)
    (init : St) (reads : list csvRead) : option St :=
  match reads with
  | ReadRec _ :: rows => Some (foldl (rowStep step minFields) init rows)
  | _ => None
  end.

(** *** LoadGenomeScores *)

Definition genomeScoresStep (genomeTagsMap : gmap Z string) (minRelevance : float64)
    (scores : gmap Z (list GenomeTag)) (rec : list string) : gmap Z (list GenomeTag) :=
  let movieId := (Atoi (field rec 0)).1 in
  let tagId := (Atoi (field rec 1)).1 in
  let relevance := (ParseFloat (field rec 2)).1 in
  if ge relevance minRelevance then
    match genomeTagsMap !! tagId with
    | Some tagName =>
        <[movieId := default [] (scores !! movieId)
                     ++ [{| GenomeTag_Tag := tagName; GenomeTag_Relevance := relevance |}]]> scores
    | None => scores
    end
  else scores.

Definition byRelevance (a b : GenomeTag) : bool :=
  gt (GenomeTag_Relevance a) (GenomeTag_Relevance b).

Definition LoadGenomeScores (reads : list csvRead) (genomeTagsMap : gmap Z string)
    (minRelevance : float64) : option (gmap Z (list GenomeTag)) :=
  match scan (genomeScoresStep genomeTagsMap minRelevance) 3 ∅ reads with
  | Some scores => Some (Slice byRelevance <$> scores)
  | None => None
  end.

(** *** normalizeTag *)

(** strings.ToLower *)
Definition ToLower (s : string) : string :=
  if forallb isASCII (bytes s) then str (map lowerByte (bytes s)) else mapToLower s.

(** The cutset of normalizeTag: full stop, comma, semicolon, colon,
    exclamation and question mark, double quote (byte 34), single quote,
    backquote, hyphen and underscore. *)
Definition tagCutset : string :=
  ".,;:!?" +:+ String (ascii_of_nat 34) "'`-_".

Definition normalizeTag (tag : string) : string :=
  let tag := TrimSpace (ToLower tag) in
  let tag := spaceRe_ReplaceAllString tag in
  Trim tag tagCutset.

(** *** LoadUserTags *)

Definition userTagsStep (tagFrequency : gmap Z (gmap string (gset Z)))
    (rec : list string) : gmap Z (gmap string (gset Z)) :=
  let userId := (Atoi (field rec 0)).1 in
  let movieId := (Atoi (field rec 1)).1 in
  let tag := normalizeTag (field rec 2) in
  if negb (String.eqb tag "") && (0 <? movieId) && (0 <? userId) then
    let tags := default ∅ (tagFrequency !! movieId) in
    let users := default ∅ (tags !! tag) in
    <[movieId := <[tag := {[userId]} ∪ users]> tags]> tagFrequency
  else tagFrequency.

(** The map tagFrequency when the scan ends. *)
Definition tagFrequencyOf (reads : list csvRead)
  : option (gmap Z (gmap string (gset Z))) :=
  scan userTagsStep 4 ∅ reads.

(** The list a key's tags are turned into, in the order [visit] in
    which the range loop meets them. *)
Definition tagListOf (visit : list (string * gset Z)) : list UserTagWithFrequency :=
  map (fun '(tag, users) => {| Tag := tag; Frequency := Z.of_nat (size users) |}) visit.

Definition byFrequency (a b : UserTagWithFrequency) : bool :=
  if negb (Frequency a =? Frequency b) then Frequency b <? Frequency a
  else String.ltb (Tag a) (Tag b).

Definition maxTags : nat := 10.

Definition rankTags (visit : list (string * gset Z)) : list string :=
  let tagList := Slice byFrequency (tagListOf visit) in
  let tagList := if (maxTags <? length tagList)%nat then take maxTags tagList else tagList in
  map Tag tagList.

Definition LoadUserTags (reads : list csvRead) : option (gmap Z (list string)) :=
  match tagFrequencyOf reads with
  | Some tagFrequency => Some ((fun tags => rankTags (map_to_list tags)) <$> tagFrequency)
  | None => None
  end.

(** *** LoadRatingStats *)

Record accumulator := {
  sum : float64;
  count : Z;
  lastTs : Z }.

Definition ratingStatsStep (accums : gmap Z accumulator) (rec : list string)
  : gmap Z accumulator :=
  let movieId := (Atoi (field rec 1)).1 in
  let rating := (ParseFloat (field rec 2)).1 in
  let timestamp := (ParseInt (field rec 3)).1 in
  let acc := default {| sum := zero; count := 0; lastTs := 0 |} (accums !! movieId) in
  <[movieId := {| sum := add (sum acc) rating;
                  count := wrap64 (count acc + 1);
                  lastTs := if lastTs acc <? timestamp then timestamp else lastTs acc |}]>
    accums.

Definition accumsOf (reads : list csvRead) : option (gmap Z accumulator) :=
  scan ratingStatsStep 4 ∅ reads.

Definition statsOf (acc : accumulator) : option RatingStats :=
  if 0 <? count acc then
    let avg := div (sum acc) (of_int (count acc)) in
    let lastRatedAt :=
      if 0 <? lastTs acc then Time.UnixUTCFormatRFC3339 (lastTs acc) else ""%string in
    Some {| Average := avg; Count := count acc; LastRatedAt := lastRatedAt |}
  else None.

Definition LoadRatingStats (reads : list csvRead) : option (gmap Z RatingStats) :=
  match accumsOf reads with
  | Some accums => Some (omap statsOf accums)
  | None => None
  end.

(** *** LoadSimilarities *)

(** The reverse map iIdx -> movieId, filled while ranging over
    itemMapper.GetMapping(); [visit] lists the mapping's entries in the
    order the range loop meets them. *)
Definition reverseMapOf (visit : list (Z * Z)) : gmap Z Z :=
  foldl (fun rm '(movieId, iIdx) => <[iIdx := movieId]> rm) ∅ visit.

Definition similaritiesStep (reverseMap : gmap Z Z)
    (similarities : gmap Z (list Neighbor)) (rec : list string) : gmap Z (list Neighbor) :=
  let iIdx := (Atoi (field rec 0)).1 in
  let jIdx := (Atoi (field rec 1)).1 in
  let sim := (ParseFloat (field rec 2)).1 in
  if (0 <? iIdx) && (0 <? jIdx) then
    let jMovieId := default 0 (reverseMap !! jIdx) in
    let neighbor := {| Neighbor_MovieID := jMovieId; Neighbor_IIdx := jIdx; Sim := sim |} in
    <[iIdx := default [] (similarities !! iIdx) ++ [neighbor]]> similarities
  else similarities.

Definition LoadSimilarities (reads : list csvRead) (visit : list (Z * Z))
  : option (gmap Z (list Neighbor)) :=
  scan (similaritiesStep (reverseMapOf visit)) 3 ∅ reads.

End Loaders.
End Loaders.

(** ** internal/processors: title and year *)

Module Processors.
Import GoStrings Strconv.

(** parseTitleAndYear(raw, yearRe): the title and, when a year was found,
    the year ([*int], nil as [None]). [yearRe] is the FindStringSubmatch
    method of the expression the caller passes. *)
Definition parseTitleAndYear (raw : string) (yearRe : string -> list string)
  : string * option Z :=
  let raw := TrimSpace raw in
  let m := yearRe raw in
  match m with
  | [_; m1] =>
      match Atoi m1 with
      | (y, None) =>
          let idx := LastIndexByte raw "(" in
          if 0 <? idx then (TrimSpace (prefixTo raw idx), Some y)
          else (TrimSpace raw, Some y)
      | _ => (raw, None)
      end
  | _ => (raw, None)
  end.

(** The document ProcessSimilarities writes for one entry of
    [similarities]; [now] is what isoNow() returned. *)
Definition similarityDoc (reverseMap : gmap Z Z) (now : string)
    (iIdx : Z) (neighbors : list Models.Neighbor) : Models.SimilarityDoc :=
  let movieId := default 0 (reverseMap !! iIdx) in
  let neighbors := if (20 <? length neighbors)%nat then take 20 neighbors else neighbors in
  {| Models.ID := formatInt iIdx +:+ "_cosine_k20";
     Models.MovieID := movieId;
     Models.IIdx := iIdx;
     Models.Metric := "cosine";
     Models.K := Z.of_nat (length neighbors);
     Models.Neighbors := neighbors;
     Models.UpdatedAt := now |}.

(** Whether json.Marshal(doc) returns the encoding of a SimilarityDoc: the
    encoder refuses a float64 that is a NaN or an infinity
    (UnsupportedValueError) and encodes every integer and string, so it
    fails exactly when the weight of one of the neighbors is not finite. *)
Definition marshals (doc : Models.SimilarityDoc) : bool :=
  forallb (fun n => Float64.isFinite (Models.Sim n)) (Models.Neighbors doc).

(** The line one turn of the loop writes: b, _ := json.Marshal(doc) drops
    the error, w.Write(b) writes the encoding, or nothing when Marshal
    failed, and a line feed follows. [Some doc] is the line that encodes
    [doc], [None] the empty line. *)
Definition writtenLine (doc : Models.SimilarityDoc) : option Models.SimilarityDoc :=
  if marshals doc then Some doc else None.

(** ProcessSimilarities, once the output file is created: the lines
    written to similarities.ndjson, and the count it returns, which is
    raised in every turn of the loop. Go ranges over [similarities] in an
    order it leaves open; the lines stand here in the order of
    [map_to_list]. [visit] is the order in which the mapper's entries are
    met when the reverse map is filled. *)
Definition ProcessSimilarities (similarities : gmap Z (list Models.Neighbor))
    (visit : list (Z * Z)) (now : string) : list (option Models.SimilarityDoc) * Z :=
  let lines :=
    map (fun '(iIdx, neighbors) =>
           writtenLine (similarityDoc (Loaders.reverseMapOf visit) now iIdx neighbors))
        (map_to_list similarities) in
  (lines, Z.of_nat (length lines)).

End Processors.

(** ** internal/external: the TMDB client *)

Module External.
Import Models.

(** A response body, by what json.NewDecoder(body).Decode makes of it for
    each of the two structs it is decoded into; [None] when Decode
    returns an error. *)
Record body := {
  decodeMovie : option TMDBMovieResponse;
  decodeCredits : option TMDBCreditsResponse }.

(** What c.httpClient.Get returns: an error, or a response. *)
Inductive httpResult :=
| TransportError
| Response (StatusCode : Z) (Body : body).

(** The network: the answer to the n-th GET the client issues, given its
    URL. *)
Definition network : Type := nat -> string -> httpResult.

(** The client, with what it has done so far: [gets] are the URLs
    requested, most recent first, and [ticks] counts the values received
    from the rateLimiter channel. *)
Record TMDBClient := {
  apiKey : string;
  cache : gmap string ExternalData;
  gets : list string;
  ticks : nat }.

Inductive fetchError :=
| ErrFetchingMovieDetails
| ErrStatus (status : Z)
| ErrDecodingMovieResponse
| ErrFetchingCredits.

Inductive result :=
| Ok (data : ExternalData)
| Err (e : fetchError).

Definition NewTMDBClient (key : string) : TMDBClient :=
  {| apiKey := key; cache := ∅; gets := []; ticks := 0 |}.

(** <-c.rateLimiter *)
Definition waitTick (c : TMDBClient) : TMDBClient :=
  {| apiKey := apiKey c; cache := cache c; gets := gets c; ticks := S (ticks c) |}.

(** c.httpClient.Get(url) *)
Definition httpGet (net : network) (url : string) (c : TMDBClient) : httpResult * TMDBClient :=
  (net (length (gets c)) url,
   {| apiKey := apiKey c; cache := cache c; gets := url :: gets c; ticks := ticks c |}).

(** c.cache[tmdbID] = data *)
Definition store (tmdbID : string) (data : ExternalData) (c : TMDBClient) : TMDBClient :=
  {| apiKey := apiKey c; cache := <[tmdbID := data]> (cache c); gets := gets c; ticks := ticks c |}.

Definition movieURL (c : TMDBClient) (tmdbID : string) : string :=
  "https://api.themoviedb.org/3/movie/" +:+ tmdbID +:+ "?api_key=" +:+ apiKey c.

Definition creditsURL (c : TMDBClient) (tmdbID : string) : string :=
  "https://api.themoviedb.org/3/movie/" +:+ tmdbID +:+ "/credits?api_key=" +:+ apiKey c.

(** &models.ExternalData{TMDBFetched: false} *)
Definition emptyData : ExternalData :=
  {| PosterURL := ""; Overview := ""; Cast := []; Director := "";
     Runtime := 0; Budget := 0; Revenue := 0; TMDBFetched := false |}.

(** models.TMDBCreditsResponse{} *)
Definition noCredits : TMDBCreditsResponse :=
  {| Credits_Cast := []; Credits_Crew := [] |}.

Definition maxCast : nat := 10.

Definition castMember (member : TMDBCast) : CastMember :=
  {| CastMember_Name := Cast_Name member;
     ProfileURL := if String.eqb (Cast_ProfilePath member) "" then ""
                   else "https://image.tmdb.org/t/p/w185" +:+ Cast_ProfilePath member |}.

(** The loop over creditsData.Crew: the first member whose job is
    Director; the empty string when there is none. *)
Fixpoint directorOf (crew : list TMDBCrew) : string :=
  match crew with
  | [] => ""
  | member :: rest =>
      if String.eqb (Crew_Job member) "Director" then Crew_Name member
      else directorOf rest
  end.

Definition buildExternalData (movieData : TMDBMovieResponse)
    (creditsData : TMDBCreditsResponse) : ExternalData :=
  {| PosterURL := if String.eqb (TMDB_PosterPath movieData) "" then ""
                  else "https://image.tmdb.org/t/p/w500" +:+ TMDB_PosterPath movieData;
     Overview := TMDB_Overview movieData;
     Cast := map castMember (take maxCast (Credits_Cast creditsData));
     Director := directorOf (Credits_Crew creditsData);
     Runtime := TMDB_Runtime movieData;
     Budget := TMDB_Budget movieData;
     Revenue := TMDB_Revenue movieData;
     TMDBFetched := true |}.

(** FetchMovieData, run by one caller at a time: the result and the
    client afterwards. *)
Definition FetchMovieData (net : network) (c : TMDBClient) (tmdbID title : string)
  : result * TMDBClient :=
  match cache c !! tmdbID with
  | Some cached => (Ok cached, c)
  | None =>
      let c := waitTick c in
      let '(resp, c) := httpGet net (movieURL c tmdbID) c in
      match resp with
      | TransportError => (Err ErrFetchingMovieDetails, c)
      | Response status respBody =>
          if status =? 404 then (Ok emptyData, store tmdbID emptyData c)
          else if negb (status =? 200) then (Err (ErrStatus status), c)
          else
            match decodeMovie respBody with
            | None => (Err ErrDecodingMovieResponse, c)
            | Some movieData =>
                let c := waitTick c in
                let '(creditsResp, c) := httpGet net (creditsURL c tmdbID) c in
                match creditsResp with
                | TransportError => (Err ErrFetchingCredits, c)
                | Response creditsStatus creditsBody =>
                    let creditsData :=
                      if creditsStatus =? 200
                      then default noCredits (decodeCredits creditsBody)
                      else noCredits in
                    let externalData := buildExternalData movieData creditsData in
                    (Ok externalData, store tmdbID externalData c)
                end
            end
      end
  end.

End External.

(** ** internal/mappers: the identifier mapper *)

Module Mappers.

Record IDMapper := {
  mapping : gmap Z Z;
  changed : bool }.

Definition NewIDMapper (m : gmap Z Z) : IDMapper :=
  {| mapping := m; changed := false |}.

(** The greatest index of the table; [None] for an empty table. *)
Definition maxIndex (m : gmap Z Z) : option Z :=
  map_fold (fun _ idx acc => Some (from_option (Z.max idx) idx acc)) None m.

(** The next unused index: one more than the greatest, 0 for an empty
    table. *)
Definition nextIndex (m : gmap Z Z) : Z :=
  from_option (fun idx => idx + 1) 0 (maxIndex m).

(** Modelled from the spec: IDMapper.GetOrCreate (package mappers is not
    among the sources). It returns the index [key] has when it is mapped;
    else it assigns the next unused index, one greater than the current
    maximum and 0 for an empty table, and marks the table as changed. *)
Definition GetOrCreate (key : Z) (im : IDMapper) : Z * IDMapper :=
  match mapping im !! key with
  | Some idx => (idx, im)
  | None =>
      let idx := nextIndex (mapping im) in
      (idx, {| mapping := <[key := idx]> (mapping im); changed := true |})
  end.

Definition HasChanged (im : IDMapper) : bool := changed im.
Definition GetMapping (im : IDMapper) : gmap Z Z := mapping im.
Definition Count (im : IDMapper) : Z := Z.of_nat (size (mapping im)).

(** GetOrCreate called on the keys of [keys], one after the other, as
    ProcessMovies and ProcessUsers do row by row: the indices returned, in
    that order, and the mapper afterwards. *)
Fixpoint GetOrCreateAll (keys : list Z) (im : IDMapper) : list Z * IDMapper :=
  match keys with
  | [] => ([], im)
  | key :: rest =>
      let '(idx, im) := GetOrCreate key im in
      let '(idxs, im) := GetOrCreateAll rest im in
      (idx :: idxs, im)
  end.

End Mappers.

Example parseTitleAndYear_toy_story :
  Processors.parseTitleAndYear "Toy Story (1995)" Regexp.yearRe = ("Toy Story", Some 1995).
Proof. vm_compute. reflexivity. Qed.

Example parseTitleAndYear_no_year :
  Processors.parseTitleAndYear "Some Title" Regexp.yearRe = ("Some Title", None).
Proof. vm_compute. reflexivity. Qed.

Example parseTitleAndYear_only_year :
  Processors.parseTitleAndYear " (1995) " Regexp.yearRe = ("(1995)", Some 1995).
Proof. vm_compute. reflexivity. Qed.

(** ** An instance of strconv.ParseFloat *)

Module PlainFloat.
Import GoStrings Strconv Float64.

(** The decimal digits [l] starts with, read onto the mantissa [m]: the
    mantissa, the number of digits read, and what follows them. *)
Fixpoint readDigits (l : list ascii) (m : Z) (n : nat) : Z * nat * list ascii :=
  match l with
  | c :: t =>
      match digitVal c with
      | Some d => readDigits t (m * 10 + d) (S n)
      | None => (m, n, l)
      end
  | [] => (m, n, [])
  end.

(** The binary64 nearest to m / 10^k, ties to even: the quotient is taken
    to more than 60 bits, and one more bit records an inexact division. *)
Definition decimalToFloat (m : Z) (k : nat) : float64 :=
  let den := 10 ^ Z.of_nat k in
  let s := Z.max 0 (64 + Z.log2 den - Z.log2 m) in
  let q := m * 2 ^ s / den in
  let sticky := if m * 2 ^ s mod den =? 0 then 0 else 1 in
  SF2Prim (binary_normalize prec emax (2 * q + sticky) (- (s + 1)) false).

(** strconv.ParseFloat(s, 64) on the literals made of an optional sign,
    decimal digits and at most one point, which is what the rating, score
    and similarity columns hold: the nearest binary64. The other strings
    ParseFloat accepts (an exponent, a hexadecimal mantissa, underscores,
    infinities and NaN) are outside this instance, which reads them as a
    syntax error; the properties below are proved for every ParseFloat and
    use this one only to run the loaders on sample files. *)
Definition ParseFloat (s : string) : float64 * option numError :=
  let l := bytes s in
  let '(neg, l) :=
    match l with
    | c :: t => if Ascii.eqb c "+" then (false, t)
                else if Ascii.eqb c "-" then (true, t) else (false, l)
    | [] => (false, l)
    end in
  let '(m1, n1, rest) := readDigits l 0 0 in
  let '(m, n2, rest) :=
    match rest with
    | c :: t => if Ascii.eqb c "." then readDigits t m1 0 else (m1, 0%nat, rest)
    | [] => (m1, 0%nat, rest)
    end in
  match rest with
  | [] =>
      if (n1 + n2 =? 0)%nat then (zero, Some ErrSyntax)
      else
        let v := decimalToFloat m n2 in
        (if neg then PrimFloat.opp v else v,
         if PrimFloat.is_infinity v then Some ErrRange else None)
  | _ => (zero, Some ErrSyntax)
  end.

End PlainFloat.

(** * Properties *)

(** ** Sorting *)

Section InsertionSort.
Context {A : Type} (less : A -> A -> bool).

Lemma bubble_Permutation x (rp : list A) : Sort.bubble less x rp ≡ₚ x :: rp.
Proof.
  induction rp as [|y rp IH]; simpl; [done|].
  destruct (less x y); [|done].
  rewrite IH. apply Permutation_swap.
Qed.

Lemma insertion_fold_Permutation (l acc : list A) :
  foldl (fun rp x => Sort.bubble less x rp) acc l ≡ₚ l ++ acc.
Proof.
  revert acc. induction l as [|x l IH]; intros acc; simpl; [done|].
  rewrite IH, bubble_Permutation. by rewrite Permutation_middle.
Qed.

Lemma insertionSort_Permutation (l : list A) : Sort.insertionSort less l ≡ₚ l.
Proof.
  unfold Sort.insertionSort.
  rewrite reverse_Permutation, insertion_fold_Permutation.
  by rewrite app_nil_r.
Qed.

Lemma StronglySorted_rev (R : relation A) (l : list A) :
  StronglySorted R l -> StronglySorted (flip R) (reverse l).
Proof.
  induction 1 as [|x l Hl IH Hx]; [constructor|].
  rewrite reverse_cons.
  apply StronglySorted_app_2; [|done|repeat constructor].
  intros a b Ha Hb. apply list_elem_of_singleton in Hb as ->.
  rewrite elem_of_reverse in Ha.
  rewrite Forall_forall in Hx. by apply Hx.
Qed.

Section Ordered.
Variable dom : list A.
Hypothesis Hswo : Sort.strictWeakOn less dom.

Lemma less_asym x y : x ∈ dom -> y ∈ dom -> less x y = true -> less y x = false.
Proof.
  destruct Hswo as (Hirr & Htr & _). intros Hx Hy Hxy.
  destruct (less y x) eqn:Hyx; [|done].
  rewrite <- (Hirr x Hx). symmetry. by apply (Htr x y x).
Qed.

Lemma bubble_sorted x rp :
  x ∈ dom -> rp ⊆ dom ->
  StronglySorted (fun a b => less a b = false) rp ->
  StronglySorted (fun a b => less a b = false) (Sort.bubble less x rp).
Proof.
  destruct Hswo as (Hirr & Htr & Hntr). intros Hx.
  induction rp as [|y rp IH]; intros Hsub Hs; simpl.
  { repeat constructor. }
  apply StronglySorted_cons in Hs as [Hy Hs].
  assert (y ∈ dom) as Hyd by (apply Hsub; left).
  assert (rp ⊆ dom) as Hsub' by (intros z Hz; apply Hsub; by right).
  destruct (less x y) eqn:Hxy.
  - apply StronglySorted_cons. split; [|by apply IH].
    rewrite Forall_forall. intros z Hz.
    rewrite bubble_Permutation in Hz.
    apply elem_of_cons in Hz as [->|Hz].
    + by apply less_asym.
    + rewrite Forall_forall in Hy. by apply Hy.
  - apply StronglySorted_cons. split.
    + apply Forall_cons; split; [done|].
      rewrite Forall_forall in Hy |- *. intros z Hz.
      apply (Hntr x y z); auto.
    + apply StronglySorted_cons. by split.
Qed.

Lemma insertion_fold_sorted l acc :
  l ⊆ dom -> acc ⊆ dom ->
  StronglySorted (fun a b => less a b = false) acc ->
  StronglySorted (fun a b => less a b = false)
    (foldl (fun rp x => Sort.bubble less x rp) acc l).
Proof.
  revert acc. induction l as [|x l IH]; intros acc Hl Hacc Hs; simpl; [done|].
  apply IH.
  - intros z Hz. apply Hl. by right.
  - intros z Hz. rewrite bubble_Permutation in Hz.
    apply elem_of_cons in Hz as [->|Hz]; [apply Hl; left | by apply Hacc].
  - apply bubble_sorted; [apply Hl; left | done | done].
Qed.
End Ordered.

Lemma insertionSort_sorted (l : list A) :
  Sort.strictWeakOn less l -> Sort.sortedBy less (Sort.insertionSort less l).
Proof.
  intros Hswo. unfold Sort.sortedBy, Sort.insertionSort.
  apply (StronglySorted_rev (fun a b => less a b = false)).
  apply (insertion_fold_sorted l Hswo); [done| |constructor].
  intros z Hz. by apply elem_of_nil in Hz.
Qed.
End InsertionSort.

(** Go's insertion sort is a sort.Slice. *)
Instance insertionSorter : Sort.SliceSorter :=
  {| Sort.Slice := @Sort.insertionSort |}.

Lemma insertionSorter_contract : Sort.SliceContract insertionSorter.
Proof.
  split.
  - intros A less l. apply insertionSort_Permutation.
  - intros A less l. apply insertionSort_sorted.
Qed.

(** ** The identifier mapper *)

Section MapperFacts.
Import Mappers.

Lemma maxIndex_empty : maxIndex ∅ = None.
Proof. apply map_fold_empty. Qed.

Lemma maxIndex_insert (m : gmap Z Z) key idx :
  m !! key = None ->
  maxIndex (<[key := idx]> m) = Some (from_option (Z.max idx) idx (maxIndex m)).
Proof.
  intros Hkey. unfold maxIndex.
  rewrite map_fold_insert_L; [done| |done].
  intros j1 j2 z1 z2 [y|] _ _ _; simpl; f_equal; lia.
Qed.

(** [maxIndex] is the greatest index of the table. *)
Lemma maxIndex_spec (m : gmap Z Z) :
  match maxIndex m with
  | None => m = ∅
  | Some top => (exists key, m !! key = Some top)
                /\ forall key idx, m !! key = Some idx -> idx <= top
  end.
Proof.
  induction m as [|key idx m Hkey IH] using map_ind.
  { by rewrite maxIndex_empty. }
  rewrite maxIndex_insert by done.
  destruct (maxIndex m) as [top|]; simpl.
  - destruct IH as [[k Hk] Hle]. split.
    + destruct (Z.max_spec idx top) as [[_ ->]|[_ ->]].
      * exists k. rewrite lookup_insert_ne; [done|]. intros ->. congruence.
      * exists key. by rewrite lookup_insert_eq.
    + intros k' i'. rewrite lookup_insert. case_decide.
      * intros [= <-]. lia.
      * intros Hi'. apply Hle in Hi'. lia.
  - subst m. split.
    + exists key. by rewrite lookup_insert_eq.
    + intros k' i'. rewrite lookup_insert. case_decide; [|by rewrite lookup_empty].
      intros [= <-]. lia.
Qed.

Lemma nextIndex_unused (m : gmap Z Z) key idx :
  m !! key = Some idx -> idx < nextIndex m.
Proof.
  intros Hkey. unfold nextIndex. pose proof (maxIndex_spec m) as Hmax.
  destruct (maxIndex m) as [top|]; simpl.
  - destruct Hmax as [_ Hle]. apply Hle in Hkey. lia.
  - subst m. by rewrite lookup_empty in Hkey.
Qed.

Lemma nextIndex_insert (m : gmap Z Z) key :
  m !! key = None -> nextIndex (<[key := nextIndex m]> m) = nextIndex m + 1.
Proof.
  intros Hkey. unfold nextIndex at 1. rewrite maxIndex_insert by done.
  unfold nextIndex. destruct (maxIndex m); simpl; lia.
Qed.

Lemma GetOrCreate_mapped im key idx :
  mapping im !! key = Some idx -> GetOrCreate key im = (idx, im).
Proof. intros H. unfold GetOrCreate. by rewrite H. Qed.

Lemma GetOrCreate_new im key :
  mapping im !! key = None ->
  GetOrCreate key im =
    (nextIndex (mapping im),
     {| mapping := <[key := nextIndex (mapping im)]> (mapping im); changed := true |}).
Proof. intros H. unfold GetOrCreate. by rewrite H. Qed.

Lemma GetOrCreateAll_new keys : forall im,
  NoDup keys -> (forall key, key ∈ keys -> mapping im !! key = None) ->
  (GetOrCreateAll keys im).1 = seqZ (nextIndex (mapping im)) (Z.of_nat (length keys)).
Proof.
  induction keys as [|key keys IH]; intros im Hnd Hnew; [done|].
  apply NoDup_cons in Hnd as [Hkey Hnd].
  cbn [GetOrCreateAll]. rewrite GetOrCreate_new by (apply Hnew; left).
  set (im' := {| mapping := _ |}).
  specialize (IH im' Hnd).
  destruct (GetOrCreateAll keys im') as [idxs im'']. simpl in *.
  rewrite IH.
  - unfold im'; simpl. rewrite nextIndex_insert by (apply Hnew; left).
    rewrite (seqZ_cons (nextIndex (mapping im))) by lia.
    do 2 f_equal. lia.
  - intros k Hk. unfold im'; simpl. rewrite lookup_insert_ne.
    + apply Hnew. by right.
    + intros ->. done.
Qed.
End MapperFacts.

(** C1. GetOrCreate returns the index a mapped key already has and leaves
    the mapper as it is. For a key never seen it assigns the next unused
    index, which is 0 for an empty table and else one more than the
    greatest index of the table, records it and marks the table changed, so
    that a second call with the same key returns the same index. Called
    with N distinct new keys in turn it returns the N consecutive indices
    that start at the next unused one: distinct, strictly increasing,
    without gaps. *)
Theorem GetOrCreate_assigns_next_index (im : Mappers.IDMapper) :
  (forall key idx, Mappers.mapping im !! key = Some idx ->
     Mappers.GetOrCreate key im = (idx, im))
  /\ (forall key, Mappers.mapping im !! key = None ->
        let idx := (Mappers.GetOrCreate key im).1 in
        let im' := (Mappers.GetOrCreate key im).2 in
        idx = Mappers.nextIndex (Mappers.mapping im)
        /\ (Mappers.mapping im = ∅ -> idx = 0)
        /\ (Mappers.mapping im <> ∅ ->
              (exists k, Mappers.mapping im !! k = Some (idx - 1))
              /\ forall k i, Mappers.mapping im !! k = Some i -> i <= idx - 1)
        /\ Mappers.mapping im' = <[key := idx]> (Mappers.mapping im)
        /\ Mappers.HasChanged im' = true
        /\ Mappers.GetOrCreate key im' = (idx, im'))
  /\ (forall keys, NoDup keys ->
        (forall key, key ∈ keys -> Mappers.mapping im !! key = None) ->
        (Mappers.GetOrCreateAll keys im).1
        = seqZ (Mappers.nextIndex (Mappers.mapping im)) (Z.of_nat (length keys))).
Proof.
  split; [apply GetOrCreate_mapped|]. split; [|intros; by apply GetOrCreateAll_new].
  intros key Hkey. rewrite GetOrCreate_new by done. simpl.
  split; [done|]. split; [|split; [|split; [done|split; [done|]]]].
  - intros ->. unfold Mappers.nextIndex. by rewrite maxIndex_empty.
  - intros Hne. pose proof (maxIndex_spec (Mappers.mapping im)) as Hmax.
    unfold Mappers.nextIndex. destruct (Mappers.maxIndex (Mappers.mapping im)) as [top|]; [|done].
    simpl. replace (top + 1 - 1) with top by lia. done.
  - apply GetOrCreate_mapped. simpl. by rewrite lookup_insert_eq.
Qed.

(** The table loaded from an item_map.csv with the rows (10,0) and (20,1). *)
Definition sampleMapper : Mappers.IDMapper :=
  Mappers.NewIDMapper (<[10 := 0]> (<[20 := 1]> ∅)).

Lemma GetOrCreate_assigns_next_index_witness :
  Mappers.GetOrCreate 20 sampleMapper = (1, sampleMapper)
  /\ (Mappers.GetOrCreate 30 sampleMapper).1 = 2
  /\ Mappers.HasChanged (Mappers.GetOrCreate 30 sampleMapper).2 = true
  /\ (Mappers.GetOrCreateAll [30; 40; 50] sampleMapper).1 = [2; 3; 4].
Proof.
  destruct (GetOrCreate_assigns_next_index sampleMapper) as (Hold & Hnew & Hall).
  split; [apply Hold; vm_compute; reflexivity|].
  destruct (Hnew 30) as (Hidx & _ & _ & _ & Hch & _); [vm_compute; reflexivity|].
  split; [rewrite Hidx; vm_compute; reflexivity|].
  split; [exact Hch|].
  rewrite Hall.
  - vm_compute; reflexivity.
  - compute_done.
  - intros key Hkey.
    repeat (apply elem_of_cons in Hkey as [->|Hkey]; [vm_compute; reflexivity|]).
    by apply elem_of_nil in Hkey.
Defined.

(** ** The TMDB client *)

Section ClientFacts.
Import External Models.

Lemma FetchMovieData_cached net c tmdbID title data :
  cache c !! tmdbID = Some data -> FetchMovieData net c tmdbID title = (Ok data, c).
Proof. intros H. unfold FetchMovieData. by rewrite H. Qed.

Lemma FetchMovieData_primary_404 net c tmdbID title respBody :
  cache c !! tmdbID = None ->
  net (length (gets c)) (movieURL c tmdbID) = Response 404 respBody ->
  FetchMovieData net c tmdbID title =
    (Ok emptyData,
     {| apiKey := apiKey c; cache := <[tmdbID := emptyData]> (cache c);
        gets := movieURL c tmdbID :: gets c; ticks := S (ticks c) |}).
Proof.
  intros Hmiss Hnet. unfold FetchMovieData. rewrite Hmiss.
  unfold httpGet, waitTick, movieURL in *; simpl. by rewrite Hnet.
Qed.

Lemma FetchMovieData_primary_ok net c tmdbID title respBody movieData :
  cache c !! tmdbID = None ->
  net (length (gets c)) (movieURL c tmdbID) = Response 200 respBody ->
  decodeMovie respBody = Some movieData ->
  FetchMovieData net c tmdbID title =
    let c2 := {| apiKey := apiKey c; cache := cache c;
                 gets := creditsURL c tmdbID :: movieURL c tmdbID :: gets c;
                 ticks := S (S (ticks c)) |} in
    match net (S (length (gets c))) (creditsURL c tmdbID) with
    | TransportError => (Err ErrFetchingCredits, c2)
    | Response creditsStatus creditsBody =>
        let creditsData :=
          if creditsStatus =? 200 then default noCredits (decodeCredits creditsBody)
          else noCredits in
        (Ok (buildExternalData movieData creditsData),
         store tmdbID (buildExternalData movieData creditsData) c2)
    end.
Proof.
  intros Hmiss Hnet Hdec. unfold FetchMovieData. rewrite Hmiss.
  unfold httpGet, waitTick, movieURL, creditsURL in *; simpl.
  rewrite Hnet; simpl. rewrite Hdec.
  by destruct (net _ _).
Qed.
End ClientFacts.

(** C8. When the key is not cached and the primary request is answered
    with status 404, FetchMovieData returns, as a result and not as an
    error, the record whose fetched flag is false, and stores it in the
    cache under the key; it has then waited for one tick of the rate
    limiter and issued one request. A second fetch of the same key,
    whatever the network would answer and whatever the title, returns that
    record and leaves the client as it is: no further tick is consumed and
    no request is issued. *)
Theorem FetchMovieData_not_found_is_cached
    (net net' : External.network) (c : External.TMDBClient)
    (tmdbID title title' : string) (respBody : External.body) :
  External.cache c !! tmdbID = None ->
  net (length (External.gets c)) (External.movieURL c tmdbID)
    = External.Response 404 respBody ->
  let r := External.FetchMovieData net c tmdbID title in
  r.1 = External.Ok External.emptyData
  /\ Models.TMDBFetched External.emptyData = false
  /\ External.cache r.2 !! tmdbID = Some External.emptyData
  /\ External.ticks r.2 = S (External.ticks c)
  /\ External.gets r.2 = External.movieURL c tmdbID :: External.gets c
  /\ External.FetchMovieData net' r.2 tmdbID title' = (External.Ok External.emptyData, r.2).
Proof.
  intros Hmiss Hnet r. subst r.
  rewrite (FetchMovieData_primary_404 net c tmdbID title respBody Hmiss Hnet). simpl.
  repeat split.
  - by rewrite lookup_insert_eq.
  - apply FetchMovieData_cached. simpl. by rewrite lookup_insert_eq.
Qed.

(** A network on which movie 862 does not exist. *)
Definition netNotFound : External.network :=
  fun _ _ => External.Response 404 {| External.decodeMovie := None; External.decodeCredits := None |}.

Lemma FetchMovieData_not_found_is_cached_witness :
  let r := External.FetchMovieData netNotFound (External.NewTMDBClient "key") "862" "Toy Story" in
  r.1 = External.Ok External.emptyData
  /\ External.ticks r.2 = 1%nat
  /\ External.FetchMovieData netNotFound r.2 "862" "Toy Story" = (External.Ok External.emptyData, r.2).
Proof.
  destruct (FetchMovieData_not_found_is_cached netNotFound netNotFound
              (External.NewTMDBClient "key") "862" "Toy Story" "Toy Story"
              {| External.decodeMovie := None; External.decodeCredits := None |})
    as (Hr & _ & _ & Ht & _ & Hagain); [reflexivity|reflexivity|].
  split; [exact Hr|]. split; [exact Ht|exact Hagain].
Defined.

(** A network that answers the request for the details of a movie and
    fails on the request for its credits. *)
Definition sampleMovie : Models.TMDBMovieResponse :=
  {| Models.TMDB_ID := 862; Models.TMDB_Title := "Toy Story";
     Models.TMDB_Overview := "A cowboy doll is threatened by a new spaceman toy.";
     Models.TMDB_PosterPath := "/toy.jpg"; Models.TMDB_Runtime := 81;
     Models.TMDB_Budget := 30000000; Models.TMDB_Revenue := 373554033;
     Models.TMDB_ReleaseDate := "1995-10-30" |}.

Definition netCreditsDown : External.network :=
  fun n _ =>
    match n with
    | O => External.Response 200
             {| External.decodeMovie := Some sampleMovie; External.decodeCredits := None |}
    | _ => External.TransportError
    end.

(** The same, with a credits request answered by status 500. *)
Definition netCreditsStatus500 : External.network :=
  fun n _ =>
    match n with
    | O => External.Response 200
             {| External.decodeMovie := Some sampleMovie; External.decodeCredits := None |}
    | _ => External.Response 500
             {| External.decodeMovie := None; External.decodeCredits := None |}
    end.

(** C9, as stated, fails on the code: when the credits request fails in
    transport, FetchMovieData returns an error although the primary fetch
    succeeded, and caches nothing. *)
Lemma FetchMovieData_credits_transport_error_fails :
  (External.FetchMovieData netCreditsDown (External.NewTMDBClient "key") "862" "Toy Story").1
  = External.Err External.ErrFetchingCredits
  /\ External.cache
       (External.FetchMovieData netCreditsDown (External.NewTMDBClient "key") "862" "Toy Story").2
     !! "862" = None.
Proof. split; vm_compute; reflexivity. Qed.

(** C9, amended. When the key is not cached and the primary request is
    answered with status 200 and a body that decodes, then: a credits
    response whose status is not 200, or whose body does not decode,
    degrades to empty credits, and FetchMovieData returns as a result, and
    caches, the record built from the primary data alone (no cast, no
    director); a credits response that decodes is merged in; a transport
    failure of the credits request makes FetchMovieData return an error and
    leaves the cache as it was. *)
Theorem FetchMovieData_secondary_degrades
    (net : External.network) (c : External.TMDBClient) (tmdbID title : string)
    (respBody : External.body) (movieData : Models.TMDBMovieResponse) :
  External.cache c !! tmdbID = None ->
  net (length (External.gets c)) (External.movieURL c tmdbID)
    = External.Response 200 respBody ->
  External.decodeMovie respBody = Some movieData ->
  let r := External.FetchMovieData net c tmdbID title in
  let primaryOnly := External.buildExternalData movieData External.noCredits in
  (forall status creditsBody,
     net (S (length (External.gets c))) (External.creditsURL c tmdbID)
       = External.Response status creditsBody ->
     status <> 200 \/ External.decodeCredits creditsBody = None ->
     r.1 = External.Ok primaryOnly
     /\ External.cache r.2 !! tmdbID = Some primaryOnly
     /\ Models.Cast primaryOnly = [] /\ Models.Director primaryOnly = ""%string
     /\ Models.Overview primaryOnly = Models.TMDB_Overview movieData
     /\ Models.TMDBFetched primaryOnly = true)
  /\ (forall creditsBody creditsData,
        net (S (length (External.gets c))) (External.creditsURL c tmdbID)
          = External.Response 200 creditsBody ->
        External.decodeCredits creditsBody = Some creditsData ->
        r.1 = External.Ok (External.buildExternalData movieData creditsData)
        /\ External.cache r.2 !! tmdbID
           = Some (External.buildExternalData movieData creditsData))
  /\ (net (S (length (External.gets c))) (External.creditsURL c tmdbID)
        = External.TransportError ->
      r.1 = External.Err External.ErrFetchingCredits
      /\ External.cache r.2 = External.cache c).
Proof.
  intros Hmiss Hnet Hdec r primaryOnly. subst r.
  rewrite (FetchMovieData_primary_ok net c tmdbID title respBody movieData Hmiss Hnet Hdec).
  cbv zeta. split; [|split].
  - intros status creditsBody -> Hbad. simpl.
    assert ((if status =? 200 then default External.noCredits (External.decodeCredits creditsBody)
             else External.noCredits) = External.noCredits) as ->.
    { destruct (Z.eqb_spec status 200) as [Heq|Hne]; [|done].
      destruct Hbad as [Hst|Hcd]; [done|]. by rewrite Hcd. }
    rewrite lookup_insert_eq. done.
  - intros creditsBody creditsData -> Hcd. simpl. rewrite Hcd. simpl.
    by rewrite lookup_insert_eq.
  - intros ->. done.
Qed.

Lemma FetchMovieData_secondary_degrades_witness :
  (External.FetchMovieData netCreditsStatus500 (External.NewTMDBClient "key") "862" "Toy Story").1
  = External.Ok (External.buildExternalData sampleMovie External.noCredits)
  /\ (External.FetchMovieData netCreditsDown (External.NewTMDBClient "key") "862" "Toy Story").1
     = External.Err External.ErrFetchingCredits.
Proof.
  split.
  - destruct (FetchMovieData_secondary_degrades netCreditsStatus500
                (External.NewTMDBClient "key") "862" "Toy Story"
                {| External.decodeMovie := Some sampleMovie; External.decodeCredits := None |}
                sampleMovie) as (Hdeg & _ & _); [reflexivity|reflexivity|reflexivity|].
    destruct (Hdeg 500 {| External.decodeMovie := None; External.decodeCredits := None |})
      as (Hr & _); [reflexivity|left; discriminate|exact Hr].
  - destruct (FetchMovieData_secondary_degrades netCreditsDown
                (External.NewTMDBClient "key") "862" "Toy Story"
                {| External.decodeMovie := Some sampleMovie; External.decodeCredits := None |}
                sampleMovie) as (_ & _ & Hfail); [reflexivity|reflexivity|reflexivity|].
    destruct Hfail as (Hr & _); [reflexivity|exact Hr].
Defined.

(** ** Loaders that group rows by key *)

Lemma foldl_ext {A B} (f g : A -> B -> A) (l : list B) : forall a,
  (forall a b, f a b = g a b) -> foldl f a l = foldl g a l.
Proof.
  induction l as [|b l IH]; intros a Hfg; [done|]. simpl. rewrite Hfg. by apply IH.
Qed.

Section Grouping.
Context {V : Type} (classify : list string -> option (Z * V)) (minFields : nat).

(** A step that appends the value of a row to the list of its key. *)
Definition groupStep (m : gmap Z (list V)) (rec : list string) : gmap Z (list V) :=
  match classify rec with
  | Some (k, v) => <[k := default [] (m !! k) ++ [v]]> m
  | None => m
  end.

(** What a read adds to the list of key [k]. *)
Definition contribution (k : Z) (r : csvRead) : option V :=
  match r with
  | ReadErr => None
  | ReadRec rec =>
      if (length rec <? minFields)%nat then None
      else match classify rec with
           | Some (k', v) => if decide (k' = k) then Some v else None
           | None => None
           end
  end.

Lemma rowStep_group_lookup m r k :
  Loaders.rowStep groupStep minFields m r !! k =
    match contribution k r with
    | Some v => Some (default [] (m !! k) ++ [v])
    | None => m !! k
    end.
Proof.
  destruct r as [|rec]; simpl; [done|].
  destruct (length rec <? minFields)%nat; [done|].
  unfold groupStep. destruct (classify rec) as [[k' v]|]; [|done].
  case_decide as Hk.
  - subst k'. by rewrite lookup_insert_eq.
  - by rewrite lookup_insert_ne.
Qed.

Lemma foldl_group_lookup rows : forall m k,
  foldl (Loaders.rowStep groupStep minFields) m rows !! k =
    match omap (contribution k) rows with
    | [] => m !! k
    | vs => Some (default [] (m !! k) ++ vs)
    end.
Proof.
  induction rows as [|r rows IH]; intros m k; [done|].
  cbn [foldl]. rewrite IH, rowStep_group_lookup. cbn [omap list_omap].
  destruct (contribution k r) as [v|]; [|done].
  simpl. destruct (omap (contribution k) rows); simpl.
  - done.
  - by rewrite <- app_assoc.
Qed.
End Grouping.

(** ** The neighbor table *)

(** The neighbor a similarity record stands for, with its source index;
    [None] for a record whose source or target index is not positive. *)
Definition similarityOf (ParseFloat : string -> Float64.float64 * option Strconv.numError)
    (reverseMap : gmap Z Z) (rec : list string) : option (Z * Models.Neighbor) :=
  let iIdx := (Strconv.Atoi (field rec 0)).1 in
  let jIdx := (Strconv.Atoi (field rec 1)).1 in
  let sim := (ParseFloat (field rec 2)).1 in
  if (0 <? iIdx) && (0 <? jIdx) then
    Some (iIdx, {| Models.Neighbor_MovieID := default 0 (reverseMap !! jIdx);
                   Models.Neighbor_IIdx := jIdx;
                   Models.Sim := sim |})
  else None.

(** The neighbors of source index [iIdx], in the order in which their rows
    are met in the input. *)
Definition encounteredNeighbors (ParseFloat : string -> Float64.float64 * option Strconv.numError)
    (visit : list (Z * Z)) (rows : list csvRead) (iIdx : Z) : list Models.Neighbor :=
  omap (contribution (similarityOf ParseFloat (Loaders.reverseMapOf visit)) 3 iIdx) rows.

Section NeighborFacts.
Variable ParseFloat : string -> Float64.float64 * option Strconv.numError.

Lemma similaritiesStep_group reverseMap m rec :
  Loaders.similaritiesStep ParseFloat reverseMap m rec
  = groupStep (similarityOf ParseFloat reverseMap) m rec.
Proof.
  unfold Loaders.similaritiesStep, groupStep, similarityOf.
  by destruct (_ && _).
Qed.

Lemma LoadSimilarities_lookup reads visit sims iIdx :
  Loaders.LoadSimilarities ParseFloat reads visit = Some sims ->
  sims !! iIdx =
    match encounteredNeighbors ParseFloat visit (tail reads) iIdx with
    | [] => None
    | vs => Some vs
    end.
Proof.
  unfold Loaders.LoadSimilarities, Loaders.scan.
  destruct reads as [|[|hdr] rows]; try done. intros [= <-]. simpl.
  rewrite (foldl_ext _ (Loaders.rowStep
             (groupStep (similarityOf ParseFloat (Loaders.reverseMapOf visit))) 3)).
  - rewrite foldl_group_lookup, lookup_empty. done.
  - intros m [|rec]; simpl; [done|].
    destruct (length rec <? 3)%nat; [done|]. apply similaritiesStep_group.
Qed.

Lemma similarityDoc_Neighbors reverseMap now iIdx neighbors :
  Models.Neighbors (Processors.similarityDoc reverseMap now iIdx neighbors) = take 20 neighbors
  /\ Models.K (Processors.similarityDoc reverseMap now iIdx neighbors)
     = Z.of_nat (length (take 20 neighbors))
  /\ Models.IIdx (Processors.similarityDoc reverseMap now iIdx neighbors) = iIdx.
Proof.
  unfold Processors.similarityDoc; simpl.
  destruct (Nat.ltb_spec 20 (length neighbors)); [done|].
  by rewrite take_ge by lia.
Qed.
End NeighborFacts.

(** C6. Every document ProcessSimilarities writes carries, for its source
    index, the first 20 neighbors of that index in the order in which
    LoadSimilarities met their rows in the input, and K is their number.
    So a source index with more than 20 rows is written with exactly its
    first 20 neighbors, in input order: the list is not sorted by weight
    before it is cut. A source index with at least one row gets a document
    exactly when the weights of these first 20 neighbors are all finite;
    when one of them is a NaN or an infinity, json.Marshal fails, its error
    is dropped, and an empty line is written in place of the document. The
    count returned is the number of lines. *)
Theorem ProcessSimilarities_first_20_in_input_order
    (ParseFloat : string -> Float64.float64 * option Strconv.numError)
    (reads : list csvRead) (visit : list (Z * Z)) (now : string)
    (sims : gmap Z (list Models.Neighbor)) :
  Loaders.LoadSimilarities ParseFloat reads visit = Some sims ->
  let lines := (Processors.ProcessSimilarities sims visit now).1 in
  let encountered := encounteredNeighbors ParseFloat visit (tail reads) in
  let encodable := fun iIdx =>
    forallb (fun n => Float64.isFinite (Models.Sim n)) (take 20 (encountered iIdx)) in
  (forall doc, Some doc ∈ lines ->
     Models.Neighbors doc = take 20 (encountered (Models.IIdx doc))
     /\ Models.K doc = Z.of_nat (length (Models.Neighbors doc))
     /\ encodable (Models.IIdx doc) = true)
  /\ (forall iIdx, encountered iIdx <> [] ->
        if encodable iIdx
        then exists doc, Some doc ∈ lines /\ Models.IIdx doc = iIdx
        else None ∈ lines /\ forall doc, Some doc ∈ lines -> Models.IIdx doc <> iIdx)
  /\ (forall iIdx doc, (20 < length (encountered iIdx))%nat ->
        Some doc ∈ lines -> Models.IIdx doc = iIdx ->
        Models.Neighbors doc = take 20 (encountered iIdx)
        /\ length (Models.Neighbors doc) = 20%nat /\ Models.K doc = 20)
  /\ (Processors.ProcessSimilarities sims visit now).2 = Z.of_nat (length lines).
Proof.
  intros Hload lines encountered encodable.
  assert (forall iIdx neighbors, sims !! iIdx = Some neighbors ->
            neighbors = encountered iIdx /\ encountered iIdx <> []) as Hsims.
  { intros iIdx neighbors Hin.
    rewrite (LoadSimilarities_lookup ParseFloat reads visit sims iIdx Hload) in Hin.
    unfold encountered.
    destruct (encounteredNeighbors ParseFloat visit (tail reads) iIdx); [done|].
    by injection Hin as <-. }
  assert (forall iIdx neighbors,
            Processors.marshals
              (Processors.similarityDoc (Loaders.reverseMapOf visit) now iIdx neighbors)
            = forallb (fun n => Float64.isFinite (Models.Sim n)) (take 20 neighbors))
    as Hmarshals.
  { intros iIdx neighbors. unfold Processors.marshals.
    by destruct (similarityDoc_Neighbors (Loaders.reverseMapOf visit) now iIdx neighbors)
      as (-> & _). }
  assert (forall line, line ∈ lines ->
            exists iIdx,
              encountered iIdx <> []
              /\ line = Processors.writtenLine
                          (Processors.similarityDoc (Loaders.reverseMapOf visit) now iIdx
                             (encountered iIdx))) as Hlines.
  { intros line Hline. unfold lines, Processors.ProcessSimilarities in Hline.
    cbn [fst] in Hline.
    apply list_elem_of_fmap in Hline as [[iIdx neighbors] [-> Hin]].
    apply elem_of_map_to_list, Hsims in Hin as [-> Hne]. by exists iIdx. }
  assert (forall iIdx, encountered iIdx <> [] ->
            Processors.writtenLine
              (Processors.similarityDoc (Loaders.reverseMapOf visit) now iIdx
                 (encountered iIdx)) ∈ lines) as Hwritten.
  { intros iIdx Hne.
    pose proof (LoadSimilarities_lookup ParseFloat reads visit sims iIdx Hload) as Hlk.
    fold (encountered iIdx) in Hlk.
    unfold lines, Processors.ProcessSimilarities. cbn [fst].
    apply list_elem_of_fmap. exists (iIdx, encountered iIdx). split; [done|].
    apply elem_of_map_to_list. by destruct (encountered iIdx). }
  assert (forall doc, Some doc ∈ lines ->
            Models.Neighbors doc = take 20 (encountered (Models.IIdx doc))
            /\ Models.K doc = Z.of_nat (length (Models.Neighbors doc))
            /\ encodable (Models.IIdx doc) = true) as Hdocs.
  { intros doc Hdoc. apply Hlines in Hdoc as (iIdx & _ & Hdoc).
    unfold Processors.writtenLine in Hdoc. rewrite Hmarshals in Hdoc.
    destruct (forallb _ (take 20 (encountered iIdx))) eqn:Hfinite; [|done].
    injection Hdoc as ->.
    destruct (similarityDoc_Neighbors (Loaders.reverseMapOf visit) now iIdx
                (encountered iIdx)) as (-> & -> & ->).
    done. }
  split; [exact Hdocs|]. split; [|split].
  - intros iIdx Hne. pose proof (Hwritten iIdx Hne) as Hline.
    unfold Processors.writtenLine in Hline. rewrite Hmarshals in Hline.
    fold (encodable iIdx) in Hline.
    destruct (encodable iIdx) eqn:Hfinite.
    + eexists. split; [exact Hline|]. apply similarityDoc_Neighbors.
    + split; [done|]. intros doc Hdoc Hidx.
      apply Hdocs in Hdoc as (_ & _ & Hdoc). rewrite Hidx in Hdoc. congruence.
  - intros iIdx doc Hlen Hdoc Hidx.
    destruct (Hdocs doc Hdoc) as (Hn & Hk & _). rewrite Hidx in Hn.
    assert (length (Models.Neighbors doc) = 20%nat) as Hl.
    { rewrite Hn, length_take. lia. }
    split; [done|]. split; [done|]. rewrite Hk, Hl. done.
  - done.
Qed.

(** ** The rating statistics *)

(** The rating and the timestamp LoadRatingStats reads from a record for
    key [k]: those of a record of at least four fields whose movieId field
    reads as [k]. *)
Definition ratingOf (ParseFloat : string -> Float64.float64 * option Strconv.numError)
    (k : Z) (r : csvRead) : option (Float64.float64 * Z) :=
  match r with
  | ReadErr => None
  | ReadRec rec =>
      if (length rec <? 4)%nat then None
      else if decide ((Strconv.Atoi (field rec 1)).1 = k)
           then Some ((ParseFloat (field rec 2)).1, (Strconv.ParseInt (field rec 3)).1)
           else None
  end.

(** The rating rows of key [k], in input order. *)
Definition ratingsOf (ParseFloat : string -> Float64.float64 * option Strconv.numError)
    (rows : list csvRead) (k : Z) : list (Float64.float64 * Z) :=
  omap (ratingOf ParseFloat k) rows.

(** &accumulator{} *)
Definition newAccumulator : Loaders.accumulator :=
  {| Loaders.sum := Float64.zero; Loaders.count := 0; Loaders.lastTs := 0 |}.

(** The three updates of an accumulator by one row. *)
Definition accumulate (acc : Loaders.accumulator) (v : Float64.float64 * Z)
  : Loaders.accumulator :=
  {| Loaders.sum := Float64.add (Loaders.sum acc) v.1;
     Loaders.count := wrap64 (Loaders.count acc + 1);
     Loaders.lastTs := if Loaders.lastTs acc <? v.2 then v.2 else Loaders.lastTs acc |}.

Lemma wrap64_id z : - 2 ^ 63 <= z < 2 ^ 63 -> wrap64 z = z.
Proof. intros Hz. unfold wrap64. rewrite Z.mod_small; lia. Qed.

Section RatingFacts.
Variable ParseFloat : string -> Float64.float64 * option Strconv.numError.

Lemma rowStep_rating_lookup m r k :
  Loaders.rowStep (Loaders.ratingStatsStep ParseFloat) 4 m r !! k =
    match ratingOf ParseFloat k r with
    | Some v => Some (accumulate (default newAccumulator (m !! k)) v)
    | None => m !! k
    end.
Proof.
  destruct r as [|rec]; simpl; [done|].
  destruct (length rec <? 4)%nat; [done|].
  unfold Loaders.ratingStatsStep. case_decide as Hk.
  - rewrite Hk, lookup_insert_eq. done.
  - by rewrite lookup_insert_ne.
Qed.

Lemma foldl_rating_lookup rows : forall m k,
  foldl (Loaders.rowStep (Loaders.ratingStatsStep ParseFloat) 4) m rows !! k =
    match ratingsOf ParseFloat rows k with
    | [] => m !! k
    | vs => Some (foldl accumulate (default newAccumulator (m !! k)) vs)
    end.
Proof.
  induction rows as [|r rows IH]; intros m k; [done|].
  cbn [foldl]. rewrite IH, rowStep_rating_lookup.
  unfold ratingsOf. cbn [omap list_omap].
  destruct (ratingOf ParseFloat k r) as [v|]; [|done].
  simpl. by destruct (omap (ratingOf ParseFloat k) rows).
Qed.

Lemma accumsOf_lookup reads accums k :
  Loaders.accumsOf ParseFloat reads = Some accums ->
  accums !! k =
    match ratingsOf ParseFloat (tail reads) k with
    | [] => None
    | vs => Some (foldl accumulate newAccumulator vs)
    end.
Proof.
  unfold Loaders.accumsOf, Loaders.scan.
  destruct reads as [|[|hdr] rows]; try done. intros [= <-]. simpl.
  by rewrite foldl_rating_lookup, lookup_empty.
Qed.

Lemma length_ratingsOf rows k : (length (ratingsOf ParseFloat rows k) <= length rows)%nat.
Proof.
  unfold ratingsOf. induction rows as [|r rows IH]; [done|].
  cbn [omap list_omap length]. destruct (ratingOf ParseFloat k r); cbn [length]; lia.
Qed.
End RatingFacts.

Lemma foldl_accumulate_sum vs : forall acc,
  Loaders.sum (foldl accumulate acc vs) = foldl Float64.add (Loaders.sum acc) vs.*1.
Proof. induction vs as [|v vs IH]; intros acc; [done|]. simpl. by rewrite IH. Qed.

Lemma foldl_accumulate_count vs : forall acc,
  0 <= Loaders.count acc ->
  Loaders.count acc + Z.of_nat (length vs) < 2 ^ 63 ->
  Loaders.count (foldl accumulate acc vs) = Loaders.count acc + Z.of_nat (length vs).
Proof.
  induction vs as [|v vs IH]; intros acc Hpos Hlt; cbn [foldl length] in *.
  { simpl. lia. }
  rewrite Nat2Z.inj_succ in Hlt |- *.
  assert (wrap64 (Loaders.count acc + 1) = Loaders.count acc + 1) as Hw
    by (apply wrap64_id; lia).
  rewrite IH; cbn [accumulate Loaders.count]; rewrite Hw; lia.
Qed.

Lemma foldl_accumulate_lastTs vs : forall acc,
  Loaders.lastTs (foldl accumulate acc vs) = foldl Z.max (Loaders.lastTs acc) vs.*2.
Proof.
  induction vs as [|v vs IH]; intros acc; [done|]. simpl. rewrite IH. simpl.
  f_equal. destruct (Z.ltb_spec (Loaders.lastTs acc) v.2); lia.
Qed.

Lemma foldl_max_spec (l : list Z) : forall a,
  a <= foldl Z.max a l
  /\ (forall x, x ∈ l -> x <= foldl Z.max a l)
  /\ (foldl Z.max a l = a \/ foldl Z.max a l ∈ l).
Proof.
  induction l as [|x l IH]; intros a; simpl.
  { split; [lia|]. split; [|by left]. intros x Hx. by apply elem_of_nil in Hx. }
  destruct (IH (Z.max a x)) as (Hge & Hall & Hin).
  split; [lia|]. split.
  - intros y Hy. apply elem_of_cons in Hy as [->|Hy]; [lia|by apply Hall].
  - destruct Hin as [Heq|Hin]; [|right; by right].
    destruct (Z.max_spec a x) as [[_ Hm]|[_ Hm]]; rewrite Hm in Heq |- *.
    + right. rewrite Heq. left.
    + by left.
Qed.

Lemma UnixUTCFormatRFC3339_nonempty ts : Time.UnixUTCFormatRFC3339 ts <> ""%string.
Proof.
  unfold Time.UnixUTCFormatRFC3339. destruct (Time.civilFromDays _) as [[y m] d].
  destruct (Time.pad 4 y); discriminate.
Qed.

(** ** The calendar *)

(** The proleptic Gregorian calendar, by its rules: leap years, the
    lengths of the months, and the days between 1970-01-01 and a date. *)
Definition isLeap (y : Z) : bool :=
  (y mod 4 =? 0) && (negb (y mod 100 =? 0) || (y mod 400 =? 0)).

Definition daysInMonth (y m : Z) : Z :=
  if m =? 2 then (if isLeap y then 29 else 28)
  else if (m =? 4) || (m =? 6) || (m =? 9) || (m =? 11) then 30 else 31.

(** The days of the months of year [y] before month [m]. *)
Definition daysBeforeMonth (y m : Z) : Z :=
  foldr Z.add 0 (daysInMonth y <$> seqZ 1 (m - 1)).

(** The days from 1970-01-01 to the first day of year [y]: 365 for each
    year, and one more for each leap year (477 leap years precede 1970). *)
Definition daysBeforeYear (y : Z) : Z :=
  365 * (y - 1970) + ((y - 1) / 4 - (y - 1) / 100 + (y - 1) / 400) - 477.

(** The Unix time of a civil time in UTC. *)
Definition unixOf (y m d h mi s : Z) : Z :=
  (daysBeforeYear y + daysBeforeMonth y m + (d - 1)) * 86400 + h * 3600 + mi * 60 + s.

(** A date and a time of day that exist. *)
Definition civilTime (y m d h mi s : Z) : Prop :=
  1 <= m <= 12 /\ 1 <= d <= daysInMonth y m
  /\ 0 <= h < 24 /\ 0 <= mi < 60 /\ 0 <= s < 60.

(** The decimal digit [n]. *)
Definition digit (n : Z) : ascii := ascii_of_nat (48 + Z.to_nat n).

Definition digits2 (n : Z) : list ascii := [digit (n / 10); digit (n mod 10)].

Definition digits4 (n : Z) : list ascii :=
  [digit (n / 1000); digit (n / 100 mod 10); digit (n / 10 mod 10); digit (n mod 10)].

(** The ISO 8601 form YYYY-MM-DDThh:mm:ssZ of a civil time in UTC. *)
Definition iso8601 (y m d h mi s : Z) : string :=
  GoStrings.str (digits4 y ++ "-"%char :: digits2 m ++ "-"%char :: digits2 d ++ "T"%char
                 :: digits2 h ++ ":"%char :: digits2 mi ++ ":"%char :: digits2 s ++ ["Z"%char]).

Lemma daysBeforeYear_1970 : daysBeforeYear 1970 = 0.
Proof. reflexivity. Qed.

Lemma daysBeforeYear_succ y :
  daysBeforeYear (y + 1) = daysBeforeYear y + (if isLeap y then 366 else 365).
Proof.
  unfold daysBeforeYear, isLeap.
  destruct (Z.eqb_spec (y mod 4) 0), (Z.eqb_spec (y mod 100) 0), (Z.eqb_spec (y mod 400) 0);
    simpl; Z.div_mod_to_equations; lia.
Qed.

Lemma isLeap_period y e : isLeap (y + 400 * e) = isLeap y.
Proof.
  unfold isLeap.
  replace ((y + 400 * e) mod 4) with (y mod 4) by (Z.div_mod_to_equations; lia).
  replace ((y + 400 * e) mod 100) with (y mod 100) by (Z.div_mod_to_equations; lia).
  replace ((y + 400 * e) mod 400) with (y mod 400) by (Z.div_mod_to_equations; lia).
  done.
Qed.

Lemma daysInMonth_period y e m : daysInMonth (y + 400 * e) m = daysInMonth y m.
Proof. unfold daysInMonth. by rewrite isLeap_period. Qed.

Lemma daysBeforeMonth_period y e m : daysBeforeMonth (y + 400 * e) m = daysBeforeMonth y m.
Proof.
  unfold daysBeforeMonth. f_equal. apply list_fmap_ext. intros _ i _.
  apply daysInMonth_period.
Qed.

Lemma daysBeforeYear_period y e : daysBeforeYear (y + 400 * e) = daysBeforeYear y + 146097 * e.
Proof. unfold daysBeforeYear. Z.div_mod_to_equations. lia. Qed.


Lemma isLeap_true y :
  isLeap y = true <-> y mod 4 = 0 /\ (y mod 100 <> 0 \/ y mod 400 = 0).
Proof.
  unfold isLeap.
  destruct (Z.eqb_spec (y mod 4) 0), (Z.eqb_spec (y mod 100) 0), (Z.eqb_spec (y mod 400) 0);
    simpl; split; try done; try tauto; try lia.
Qed.

Lemma isLeap_false y :
  isLeap y = false <-> y mod 4 <> 0 \/ (y mod 100 = 0 /\ y mod 400 <> 0).
Proof.
  unfold isLeap.
  destruct (Z.eqb_spec (y mod 4) 0), (Z.eqb_spec (y mod 100) 0), (Z.eqb_spec (y mod 400) 0);
    simpl; split; try done; try tauto; try lia.
Qed.


(** The months of a year, one by one: their lengths and the days before
    them. *)
Lemma months_table y m :
  1 <= m <= 12 ->
  exists leap,
    (leap = 1 /\ isLeap y = true \/ leap = 0 /\ isLeap y = false)
    /\ (m = 1 /\ daysInMonth y m = 31 /\ daysBeforeMonth y m = 0
        \/ m = 2 /\ daysInMonth y m = 28 + leap /\ daysBeforeMonth y m = 31
        \/ m = 3 /\ daysInMonth y m = 31 /\ daysBeforeMonth y m = 59 + leap
        \/ m = 4 /\ daysInMonth y m = 30 /\ daysBeforeMonth y m = 90 + leap
        \/ m = 5 /\ daysInMonth y m = 31 /\ daysBeforeMonth y m = 120 + leap
        \/ m = 6 /\ daysInMonth y m = 30 /\ daysBeforeMonth y m = 151 + leap
        \/ m = 7 /\ daysInMonth y m = 31 /\ daysBeforeMonth y m = 181 + leap
        \/ m = 8 /\ daysInMonth y m = 31 /\ daysBeforeMonth y m = 212 + leap
        \/ m = 9 /\ daysInMonth y m = 30 /\ daysBeforeMonth y m = 243 + leap
        \/ m = 10 /\ daysInMonth y m = 31 /\ daysBeforeMonth y m = 273 + leap
        \/ m = 11 /\ daysInMonth y m = 30 /\ daysBeforeMonth y m = 304 + leap
        \/ m = 12 /\ daysInMonth y m = 31 /\ daysBeforeMonth y m = 334 + leap).
Proof.
  intros Hm.
  assert (m = 1 \/ m = 2 \/ m = 3 \/ m = 4 \/ m = 5 \/ m = 6 \/ m = 7 \/ m = 8
          \/ m = 9 \/ m = 10 \/ m = 11 \/ m = 12) as Hcases by lia.
  destruct (isLeap y) eqn:HL; [exists 1|exists 0]; (split; [tauto|]);
    repeat (destruct Hcases as [->|Hcases]); try subst m;
    cbv -[isLeap]; rewrite ?HL; cbv; lia.
Qed.

(** civilFromDays gives the date of a day count: a month and a day that
    exist, at the right distance from 1970-01-01. *)
Lemma civilFromDays_spec days :
  let '(y, m, d) := Time.civilFromDays days in
  1 <= m <= 12 /\ 1 <= d <= daysInMonth y m
  /\ daysBeforeYear y + daysBeforeMonth y m + (d - 1) = days.
Proof.
  unfold Time.civilFromDays.
  set (z := days + 719468). set (era := z / 146097). set (doe := z - era * 146097).
  set (yoe := (doe - doe / 1460 + doe / 36524 - doe / 146096) / 365).
  set (doy := doe - (365 * yoe + yoe / 4 - yoe / 100)).
  set (mp := (5 * doy + 2) / 153).
  set (m := if mp <? 10 then mp + 3 else mp - 9).
  set (adj := if m <=? 2 then 1 else 0).
  set (y := yoe + era * 400 + adj).
  assert (0 <= doe < 146097) as Hdoe by (subst doe era; Z.div_mod_to_equations; lia).
  assert (days = era * 146097 + doe - 719468) as Hdays by (subst doe z; lia).
  assert (0 <= yoe <= 399
          /\ 365 * yoe + yoe / 4 - yoe / 100 <= doe
             < 365 * (yoe + 1) + (yoe + 1) / 4 - (yoe + 1) / 100 + (yoe + 1) / 400) as Hyoe.
  { subst yoe. clearbody doe. clear -Hdoe. Z.div_mod_to_equations. lia. }
  assert (0 <= doy <= 365) as Hdoy.
  { subst doy. clearbody yoe doe. clear -Hdoe Hyoe. Z.div_mod_to_equations. lia. }
  assert (doy = doe - (365 * yoe + yoe / 4 - yoe / 100)) as Hdoy' by reflexivity.
  assert (153 * mp <= 5 * doy + 2 < 153 * mp + 153) as Hmp.
  { subst mp. clearbody doy. clear -Hdoy. Z.div_mod_to_equations. lia. }
  assert (mp < 10 /\ m = mp + 3 \/ 10 <= mp /\ m = mp - 9) as Hm.
  { subst m. destruct (Z.ltb_spec mp 10); lia. }
  assert (m <= 2 /\ adj = 1 \/ 2 < m /\ adj = 0) as Hadj.
  { subst adj. destruct (Z.leb_spec m 2); lia. }
  assert (y = yoe + era * 400 + adj) as Hy by reflexivity.
  clearbody y adj m mp doy yoe doe era. clear z.
  assert (1 <= m <= 12) as Hm12 by lia.
  destruct (months_table y m Hm12) as (leap & Hleap & Htable).
  rewrite isLeap_true, isLeap_false in Hleap.
  unfold daysBeforeYear.
  split; [done|].
  repeat (destruct Htable as [(Hmk & -> & ->)|Htable]);
    try (destruct Htable as (Hmk & -> & ->));
    (Z.div_mod_to_equations; lia).
Qed.

(** The digits the formatter writes. *)
Lemma pad_2_digits n : 0 <= n < 100 -> Time.pad 2 n = GoStrings.str (digits2 n).
Proof.
  intros Hn.
  assert (forallb (fun n => String.eqb (Time.pad 2 n) (GoStrings.str (digits2 n)))
                  (seqZ 0 100) = true) as Hall by (vm_compute; reflexivity).
  rewrite forallb_forall in Hall. apply String.eqb_eq, Hall.
  apply list_elem_of_In, elem_of_seqZ. lia.
Qed.

Lemma pad_4_digits n : 0 <= n < 10000 -> Time.pad 4 n = GoStrings.str (digits4 n).
Proof.
  intros Hn.
  assert (forallb (fun n => String.eqb (Time.pad 4 n) (GoStrings.str (digits4 n)))
                  (seqZ 0 10000) = true) as Hall by (vm_compute; reflexivity).
  rewrite forallb_forall in Hall. apply String.eqb_eq, Hall.
  apply list_elem_of_In, elem_of_seqZ. lia.
Qed.

Lemma str_app l1 l2 : GoStrings.str (l1 ++ l2) = (GoStrings.str l1 +:+ GoStrings.str l2)%string.
Proof.
  unfold GoStrings.str. induction l1 as [|c l1 IH]; [done|]. simpl. by rewrite IH.
Qed.

(** The rendering of a time between the epoch and the end of year 9999 is
    the ISO 8601 form of the civil time that lies that many seconds after
    1970-01-01T00:00:00Z. *)
Lemma UnixUTCFormatRFC3339_iso8601 ts :
  0 <= ts < 253402300800 ->
  exists y m d h mi s,
    1970 <= y <= 9999 /\ civilTime y m d h mi s /\ unixOf y m d h mi s = ts
    /\ Time.UnixUTCFormatRFC3339 ts = iso8601 y m d h mi s.
Proof.
  intros Hts. unfold Time.UnixUTCFormatRFC3339.
  pose proof (civilFromDays_spec (ts / 86400)) as Hcivil.
  destruct (Time.civilFromDays (ts / 86400)) as [[y m] d].
  destruct Hcivil as (Hm & Hd & Hdays).
  set (secs := ts mod 86400) in *.
  assert (0 <= secs < 86400) as Hsecs by (subst secs; Z.div_mod_to_equations; lia).
  assert (ts = ts / 86400 * 86400 + secs) as Hsplit
    by (subst secs; Z.div_mod_to_equations; lia).
  assert (0 <= ts / 86400 < 2932897) as Hrange by (Z.div_mod_to_equations; lia).
  assert (1970 <= y <= 9999) as Hy.
  { destruct (months_table y m Hm) as (leap & Hleap & Htable).
    rewrite isLeap_true, isLeap_false in Hleap. unfold daysBeforeYear in Hdays.
    clear Hsplit. clearbody secs.
    repeat (destruct Htable as [(Hmk & Hdim & Hbefore)|Htable]);
      try (destruct Htable as (Hmk & Hdim & Hbefore));
      rewrite Hdim in Hd; rewrite Hbefore in Hdays;
      (Z.div_mod_to_equations; lia). }
  exists y, m, d, (secs / 3600), (secs mod 3600 / 60), (secs mod 60).
  split; [done|]. split; [|split].
  - unfold civilTime. repeat split; try tauto; Z.div_mod_to_equations; lia.
  - unfold unixOf. rewrite Hdays. Z.div_mod_to_equations. lia.
  - rewrite (pad_4_digits y) by lia.
    rewrite (pad_2_digits m) by lia.
    rewrite (pad_2_digits d).
    2: { destruct (months_table y m Hm) as (leap & Hleap & Htable). lia. }
    rewrite (pad_2_digits (secs / 3600)) by (Z.div_mod_to_equations; lia).
    rewrite (pad_2_digits (secs mod 3600 / 60)) by (Z.div_mod_to_equations; lia).
    rewrite (pad_2_digits (secs mod 60)) by (Z.div_mod_to_equations; lia).
    unfold iso8601. rewrite !str_app. reflexivity.
Qed.

(** The rating and the timestamp of a valid rating row of key [k]: a
    record of at least four fields whose movieId, rating and timestamp
    fields all parse, the movieId as [k]. *)
Definition validRatingOf (ParseFloat : string -> Float64.float64 * option Strconv.numError)
    (k : Z) (r : csvRead) : option (Float64.float64 * Z) :=
  match r with
  | ReadErr => None
  | ReadRec rec =>
      if (length rec <? 4)%nat then None
      else
        match Strconv.Atoi (field rec 1), ParseFloat (field rec 2),
              Strconv.ParseInt (field rec 3) with
        | (movieId, None), (rating, None), (timestamp, None) =>
            if decide (movieId = k) then Some (rating, timestamp) else None
        | _, _, _ => None
        end
  end.

Definition validRatingsOf (ParseFloat : string -> Float64.float64 * option Strconv.numError)
    (rows : list csvRead) (k : Z) : list (Float64.float64 * Z) :=
  omap (validRatingOf ParseFloat k) rows.

(** A ratings file whose only record has a rating and a timestamp that do
    not parse. *)
Definition ratingsUnparsable : list csvRead :=
  [ReadRec ["userId"; "movieId"; "rating"; "timestamp"];
   ReadRec ["9"; "5"; "abc"; "xyz"]]%string.



(** A ratings file: two ratings of movie 5, one of movie 7 without a
    usable timestamp, and a record that is too short. *)
Definition sampleRatings : list csvRead :=
  [ReadRec ["userId"; "movieId"; "rating"; "timestamp"];
   ReadRec ["1"; "5"; "4.0"; "100"];
   ReadRec ["2"; "5"; "3.5"; "1000000000"];
   ReadRec ["3"; "7"; "2.0"; "0"];
   ReadRec ["4"; "9"]]%string.

Example LoadRatingStats_sample :
  (map_to_list <$> Loaders.LoadRatingStats PlainFloat.ParseFloat sampleRatings)
  = Some [(7, {| Models.Average := 2%float; Models.Count := 1;
                 Models.LastRatedAt := "" |});
          (5, {| Models.Average := 3.75%float; Models.Count := 2;
                 Models.LastRatedAt := "2001-09-09T01:46:40Z" |})].
Proof. vm_compute. reflexivity. Qed.

Example iso8601_sample :
  iso8601 2001 9 9 1 46 40 = "2001-09-09T01:46:40Z"%string
  /\ unixOf 2001 9 9 1 46 40 = 1000000000.
Proof. vm_compute. split; reflexivity. Qed.


(** A ratings file whose second rating of movie 5 has a rating field that
    does not parse, and the same file without that record. *)
Definition ratingsWithBadRow : list csvRead :=
  [ReadRec ["userId"; "movieId"; "rating"; "timestamp"];
   ReadRec ["1"; "5"; "4.0"; "100"];
   ReadRec ["2"; "5"; "abc"; "200"]]%string.

Definition ratingsWithoutBadRow : list csvRead :=
  [ReadRec ["userId"; "movieId"; "rating"; "timestamp"];
   ReadRec ["1"; "5"; "4.0"; "100"]]%string.

(** C10, as stated, fails on the code: a record whose rating field does
    not parse is not discarded. It is counted for its key with the rating
    0, so here the count of movie 5 is 2 instead of 1, its timestamp 200
    instead of 100, and its average 2 instead of 4. *)
Lemma LoadRatingStats_counts_unparsable_rating :
  (Strconv.ParseInt "abc").2 = Some Strconv.ErrSyntax
  /\ (PlainFloat.ParseFloat "abc").2 = Some Strconv.ErrSyntax
  /\ (map_to_list <$> Loaders.accumsOf PlainFloat.ParseFloat ratingsWithBadRow)
     = Some [(5, {| Loaders.sum := 4%float; Loaders.count := 2; Loaders.lastTs := 200 |})]
  /\ (map_to_list <$> Loaders.accumsOf PlainFloat.ParseFloat ratingsWithoutBadRow)
     = Some [(5, {| Loaders.sum := 4%float; Loaders.count := 1; Loaders.lastTs := 100 |})]
  /\ (map_to_list <$> Loaders.LoadRatingStats PlainFloat.ParseFloat ratingsWithBadRow)
     = Some [(5, {| Models.Average := 2%float; Models.Count := 2;
                    Models.LastRatedAt := "1970-01-01T00:03:20Z" |})]
  /\ (map_to_list <$> Loaders.LoadRatingStats PlainFloat.ParseFloat ratingsWithoutBadRow)
     = Some [(5, {| Models.Average := 4%float; Models.Count := 1;
                    Models.LastRatedAt := "1970-01-01T00:01:40Z" |})].
Proof. repeat split; vm_compute; reflexivity. Qed.

(** C10, amended. A read error and a record of fewer than four fields are
    discarded one by one: the scan goes on, and the accumulators are those
    of the file without that read. A record of at least four fields is
    never discarded, whatever its fields hold: a field that does not parse
    is read as the value the parser returns beside its error (0 for an
    integer with a syntax error), the record is counted for the key its
    movieId field reads as, with the rating and the timestamp read that
    way, and the accumulator of every other key is left as it was. *)
Theorem LoadRatingStats_discards_short_rows_only
    (ParseFloat : string -> Float64.float64 * option Strconv.numError)
    (hdr : list string) (before after : list csvRead) :
  (forall r, r = ReadErr \/ (exists rec, r = ReadRec rec /\ (length rec < 4)%nat) ->
     Loaders.accumsOf ParseFloat (ReadRec hdr :: before ++ r :: after)
     = Loaders.accumsOf ParseFloat (ReadRec hdr :: before ++ after))
  /\ (forall rec accums, (4 <= length rec)%nat ->
        let key := (Strconv.Atoi (field rec 1)).1 in
        let rating := (ParseFloat (field rec 2)).1 in
        let timestamp := (Strconv.ParseInt (field rec 3)).1 in
        let accums' := Loaders.rowStep (Loaders.ratingStatsStep ParseFloat) 4 accums (ReadRec rec) in
        accums' !! key
          = Some (accumulate (default newAccumulator (accums !! key)) (rating, timestamp))
        /\ (forall k, k <> key -> accums' !! k = accums !! k)
        /\ ((Strconv.Atoi (field rec 1)).2 = Some Strconv.ErrSyntax -> key = 0)
        /\ ((Strconv.ParseInt (field rec 3)).2 = Some Strconv.ErrSyntax -> timestamp = 0)).
Proof.
  split.
  - intros r Hr. unfold Loaders.accumsOf, Loaders.scan. f_equal.
    rewrite !foldl_app. cbn [foldl]. f_equal.
    destruct Hr as [->|(rec & -> & Hlen)]; simpl; [done|].
    destruct (Nat.ltb_spec (length rec) 4); [done|lia].
  - intros rec accums Hlen key rating timestamp accums'.
    split; [|split; [|split]].
    + unfold accums'. rewrite rowStep_rating_lookup. unfold ratingOf.
      destruct (Nat.ltb_spec (length rec) 4); [lia|].
      fold key. by rewrite decide_True.
    + intros k Hk. unfold accums'. rewrite rowStep_rating_lookup. unfold ratingOf.
      destruct (Nat.ltb_spec (length rec) 4); [lia|].
      fold key. by rewrite decide_False.
    + unfold key, Strconv.Atoi, Strconv.ParseInt.
      destruct (GoStrings.bytes (field rec 1)) as [|c t]; [done|].
      destruct (Strconv.parseUint _) as [un [[]|]]; [done| |];
        repeat (destruct (_ && _); [done|]); done.
    + unfold timestamp, Strconv.ParseInt.
      destruct (GoStrings.bytes (field rec 3)) as [|c t]; [done|].
      destruct (Strconv.parseUint _) as [un [[]|]]; [done| |];
        repeat (destruct (_ && _); [done|]); done.
Qed.

Lemma LoadRatingStats_discards_short_rows_only_witness :
  Loaders.accumsOf PlainFloat.ParseFloat
    (ReadRec ["userId"; "movieId"; "rating"; "timestamp"]
       :: [ReadRec ["1"; "5"; "4.0"; "100"]] ++ ReadRec ["2"; "5"; "3.0"] :: [ReadRec ["3"; "5"; "2.0"; "50"]])%string
  = Loaders.accumsOf PlainFloat.ParseFloat
    (ReadRec ["userId"; "movieId"; "rating"; "timestamp"]
       :: [ReadRec ["1"; "5"; "4.0"; "100"]] ++ [ReadRec ["3"; "5"; "2.0"; "50"]])%string
  /\ Loaders.rowStep (Loaders.ratingStatsStep PlainFloat.ParseFloat) 4 ∅
       (ReadRec ["2"; "x"; "abc"; "200"]%string) !! 0
     = Some {| Loaders.sum := 0%float; Loaders.count := 1; Loaders.lastTs := 200 |}.
Proof.
  destruct (LoadRatingStats_discards_short_rows_only PlainFloat.ParseFloat
              ["userId"; "movieId"; "rating"; "timestamp"]%string
              [ReadRec ["1"; "5"; "4.0"; "100"]%string]
              [ReadRec ["3"; "5"; "2.0"; "50"]%string]) as [Hshort Hlong].
  split.
  - apply Hshort. right. exists ["2"; "5"; "3.0"]%string. split; [reflexivity|simpl; lia].
  - destruct (Hlong ["2"; "x"; "abc"; "200"]%string ∅) as (Hkey & _); [simpl; lia|].
    exact Hkey.
Defined.

(** ** Title and year *)

(** The value of a run of decimal digits. *)
Definition decimalValue (d : list ascii) : Z :=
  foldl (fun n c => n * 10 + (GoStrings.code c - 48)) 0 d.

(** Four decimal digits. *)
Definition yearGroup (d : list ascii) : Prop :=
  length d = 4%nat /\ Forall (fun c => Regexp.reDigit c = true) d.

(** The string [t] ends with a parenthesized group [d] of four digits, and
    [pre] is what stands before the opening parenthesis of the group. *)
Definition endsWithYear (t : string) (pre d : list ascii) : Prop :=
  GoStrings.bytes t = pre ++ "("%char :: d ++ [")"%char] /\ yearGroup d.

Section TitleFacts.
Import GoStrings Regexp Strconv Processors.

Lemma bytes_str l : bytes (str l) = l.
Proof. apply list_ascii_of_string_of_list_ascii. Qed.

Lemma str_bytes s : str (bytes s) = s.
Proof. apply string_of_list_ascii_of_string. Qed.

Lemma trimLeftSpaceRev_head l :
  match trimLeftSpaceRev l with
  | [] => True
  | c :: _ => asciiSpace c = false
  end.
Proof.
  remember (length l) as n eqn:Hn. revert l Hn.
  induction n as [n IH] using lt_wf_ind. intros l Hn.
  destruct l as [|a t]; [done|]. simpl in Hn. simpl.
  destruct (asciiSpace a) eqn:Ha.
  { apply (IH (length t)); [lia|done]. }
  destruct t as [|b t2]; [by rewrite Ha|].
  destruct (space2 b a).
  { apply (IH (length t2)); [simpl in Hn; lia|done]. }
  destruct t2 as [|c t3]; [by rewrite Ha|].
  destruct (space3 c b a); [|by rewrite Ha].
  apply (IH (length t3)); [simpl in Hn; lia|done].
Qed.

Lemma TrimSpace_last raw c :
  last (bytes (TrimSpace raw)) = Some c -> asciiSpace c = false.
Proof.
  unfold TrimSpace, trimRightSpace. rewrite bytes_str, last_reverse.
  pose proof (trimLeftSpaceRev_head (reverse (trimLeftSpace (bytes raw)))) as Hhd.
  destruct (trimLeftSpaceRev _); [done|]. by intros [= <-].
Qed.

Lemma reSpace_asciiSpace c : reSpace c = true -> asciiSpace c = true.
Proof. unfold reSpace, asciiSpace. by repeat case_match. Qed.

Lemma yearReMatchHere_Some l g :
  yearReMatchHere l = Some g ->
  exists rest, l = "("%char :: g ++ ")"%char :: rest
               /\ yearGroup g /\ forallb reSpace rest = true.
Proof.
  destruct l as [|p [|d1 [|d2 [|d3 [|d4 [|q rest]]]]]]; try done. simpl.
  destruct (Ascii.eqb_spec p "(") as [->|]; [|done].
  destruct (reDigit d1) eqn:H1; [|done]. destruct (reDigit d2) eqn:H2; [|done].
  destruct (reDigit d3) eqn:H3; [|done]. destruct (reDigit d4) eqn:H4; [|done].
  destruct (Ascii.eqb_spec q ")") as [->|]; [|done].
  destruct (forallb reSpace rest) eqn:Hrest; [|done].
  intros [= <-]. exists rest. split; [done|]. split; [|done].
  split; [done|]. by repeat constructor.
Qed.

Lemma yearReMatchHere_group d :
  yearGroup d -> yearReMatchHere ("("%char :: d ++ [")"%char]) = Some d.
Proof.
  intros [Hlen Hd].
  destruct d as [|d1 [|d2 [|d3 [|d4 [|]]]]]; try done.
  apply Forall_cons in Hd as [H1 Hd]. apply Forall_cons in Hd as [H2 Hd].
  apply Forall_cons in Hd as [H3 Hd]. apply Forall_cons in Hd as [H4 _].
  simpl. by rewrite H1, H2, H3, H4.
Qed.

Lemma yearReFind_Some l : forall w g,
  yearReFind l = Some (w, g) ->
  exists pre rest, l = pre ++ "("%char :: g ++ ")"%char :: rest
                   /\ yearGroup g /\ forallb reSpace rest = true.
Proof.
  induction l as [|a l IH]; intros w g; cbn [yearReFind].
  { done. }
  destruct (yearReMatchHere (a :: l)) as [g'|] eqn:Hhere.
  - intros Heq. simplify_eq.
    apply yearReMatchHere_Some in Hhere as (rest & Hl & Hg & Hrest).
    exists [], rest. by rewrite Hl.
  - intros Hfind. apply IH in Hfind as (pre & rest & -> & Hg & Hrest).
    by exists (a :: pre), rest.
Qed.

Lemma yearReFind_group pre d :
  yearGroup d ->
  yearReFind (pre ++ "("%char :: d ++ [")"%char]) = Some ("("%char :: d ++ [")"%char], d).
Proof.
  intros Hd. induction pre as [|a pre IH].
  { simpl app. destruct d as [|d1 d']; [by destruct Hd|].
    cbn [yearReFind app]. change ("("%char :: (d1 :: d') ++ [")"%char])
      with ("("%char :: (d1 :: d') ++ [")"%char]).
    pose proof (yearReMatchHere_group (d1 :: d') Hd) as Hm. simpl in Hm |- *.
    by rewrite Hm. }
  cbn [app yearReFind].
  destruct (yearReMatchHere (a :: pre ++ "("%char :: d ++ [")"%char])) as [g|] eqn:Hhere;
    [|exact IH].
  exfalso. apply yearReMatchHere_Some in Hhere as (rest & Heq & [Hglen _] & Hrest).
  destruct Hd as [Hdlen _].
  assert (last (a :: pre ++ "("%char :: d ++ [")"%char]) = Some ")"%char) as Hlast.
  { replace (a :: pre ++ "("%char :: d ++ [")"%char])
      with ((a :: pre ++ "("%char :: d) ++ [")"%char])
      by (simpl; by rewrite <- app_assoc).
    apply last_snoc. }
  assert (rest <> []) as Hne.
  { intros ->. apply (f_equal length) in Heq. simpl in Heq.
    rewrite !length_app in Heq. simpl in Heq. rewrite !length_app in Heq. simpl in Heq. lia. }
  destruct (last rest) as [c|] eqn:Hc; [|by apply last_None in Hc].
  rewrite Heq in Hlast.
  replace ("("%char :: g ++ ")"%char :: rest)
    with (("("%char :: g ++ [")"%char]) ++ rest) in Hlast
    by (simpl; by rewrite <- app_assoc).
  rewrite last_app, Hc in Hlast. injection Hlast as ->.
  apply last_Some in Hc as [rest' ->].
  rewrite forallb_app in Hrest. simpl in Hrest.
  by rewrite andb_false_r in Hrest.
Qed.
End TitleFacts.

Section TitleParsing.
Import GoStrings Regexp Strconv Processors.

Lemma reDigit_code c : reDigit c = true -> 48 <= code c <= 57.
Proof. unfold reDigit. intros H. apply andb_true_iff in H as [H1 H2]. lia. Qed.

Lemma reDigit_digitVal c : reDigit c = true -> digitVal c = Some (code c - 48).
Proof. unfold reDigit, digitVal. by intros ->. Qed.

Lemma reDigit_not_byte c (b : ascii) :
  reDigit c = true -> (code b < 48 \/ 57 < code b) -> Ascii.eqb c b = false.
Proof.
  intros Hc Hb. destruct (Ascii.eqb_spec c b) as [->|]; [|done].
  apply reDigit_code in Hc. lia.
Qed.

Lemma Atoi_yearGroup d : yearGroup d -> Atoi (str d) = (decimalValue d, None).
Proof.
  intros [Hlen Hd].
  destruct d as [|d1 [|d2 [|d3 [|d4 [|]]]]]; try done.
  apply Forall_cons in Hd as [H1 Hd]. apply Forall_cons in Hd as [H2 Hd].
  apply Forall_cons in Hd as [H3 Hd]. apply Forall_cons in Hd as [H4 _].
  unfold Atoi, ParseInt. rewrite bytes_str.
  rewrite (reDigit_not_byte d1 "+"), (reDigit_not_byte d1 "-")
    by (done || (left; reflexivity)).
  cbn [orb andb negb parseUint parseUintFrom].
  rewrite !reDigit_digitVal by done.
  apply reDigit_code in H1, H2, H3, H4.
  unfold decimalValue. cbn [foldl]. unfold maxUint64.
  repeat match goal with
         | |- context [?a <? ?b] => destruct (Z.ltb_spec a b); [lia|]
         | |- context [?a <=? ?b] => destruct (Z.leb_spec a b); [lia|]
         end.
  done.
Qed.

Lemma lastIndexByteFrom_absent c l : forall i found,
  c ∉ l -> lastIndexByteFrom i c l found = found.
Proof.
  induction l as [|a l IH]; intros i found Hc; [done|]. simpl.
  apply not_elem_of_cons in Hc as [Hne Hc].
  destruct (Ascii.eqb_spec a c) as [->|]; [done|]. by apply IH.
Qed.

Lemma lastIndexByteFrom_last c l1 l2 : forall i found,
  c ∉ l2 -> lastIndexByteFrom i c (l1 ++ c :: l2) found = i + Z.of_nat (length l1).
Proof.
  induction l1 as [|a l1 IH]; intros i found Hc; simpl.
  - rewrite Ascii.eqb_refl, lastIndexByteFrom_absent by done. lia.
  - rewrite IH by done. lia.
Qed.

Lemma LastIndexByte_year t pre d :
  endsWithYear t pre d -> LastIndexByte t "(" = Z.of_nat (length pre).
Proof.
  intros [Ht [_ Hd]]. unfold LastIndexByte. rewrite Ht, lastIndexByteFrom_last; [lia|].
  intros Hin. apply elem_of_app in Hin as [Hin|Hin].
  - rewrite Forall_forall in Hd. by apply Hd in Hin.
  - by apply list_elem_of_singleton in Hin.
Qed.

Lemma trimLeftSpace_keeps a t :
  asciiSpace a = false -> (forall b, space2 a b = false) ->
  (forall b c, space3 a b c = false) -> trimLeftSpace (a :: t) = a :: t.
Proof.
  intros Ha H2 H3. cbn [trimLeftSpace]. rewrite Ha.
  destruct t as [|b [|c t]]; [done|by rewrite H2|by rewrite H2, H3].
Qed.

Lemma trimLeftSpaceRev_keeps a t :
  asciiSpace a = false -> (forall b, space2 b a = false) ->
  (forall b c, space3 c b a = false) -> trimLeftSpaceRev (a :: t) = a :: t.
Proof.
  intros Ha H2 H3. cbn [trimLeftSpaceRev]. rewrite Ha.
  destruct t as [|b [|c t]]; [done|by rewrite H2|by rewrite H2, H3].
Qed.

Lemma TrimSpace_year_only t d : endsWithYear t [] d -> TrimSpace t = t.
Proof.
  intros [Ht _]. simpl in Ht.
  unfold TrimSpace, trimRightSpace. rewrite <- (str_bytes t) at 2. rewrite Ht. f_equal.
  rewrite trimLeftSpace_keeps by done.
  rewrite app_comm_cons, reverse_snoc, trimLeftSpaceRev_keeps.
  - by rewrite reverse_cons, reverse_involutive.
  - done.
  - intros b. unfold space2. change (code ")") with 41. simpl. apply andb_false_r.
  - intros b c. unfold space3. change (code ")") with 41. simpl.
    by rewrite !andb_false_r.
Qed.
End TitleParsing.

(** C7, as stated, fails on the code: the title "(1995)" ends with a
    parenthesized group of four digits, and what stands before its opening
    parenthesis is empty, but the title returned is the whole string. *)
Lemma parseTitleAndYear_bare_year_keeps_group :
  Processors.parseTitleAndYear "(1995)" Regexp.yearRe = ("(1995)"%string, Some 1995)
  /\ endsWithYear (GoStrings.TrimSpace "(1995)") [] (GoStrings.bytes "1995")
  /\ GoStrings.TrimSpace (GoStrings.str []) = ""%string.
Proof.
  split; [vm_compute; reflexivity|]. split; [|vm_compute; reflexivity].
  split; [vm_compute; reflexivity|]. split; [reflexivity|].
  repeat constructor.
Qed.

(** C7, amended. Let t be the raw title with the white space around it
    trimmed. If t ends with a parenthesized group of four digits,
    parseTitleAndYear returns the number the group spells as the year; the
    title is what stands before the opening parenthesis of the group,
    trimmed, unless nothing stands before it, in which case the title is t
    itself. If t does not end with such a group, the title is t and no year
    is set. *)
Theorem parseTitleAndYear_trailing_year (raw : string) :
  let t := GoStrings.TrimSpace raw in
  (forall pre d, endsWithYear t pre d ->
     Processors.parseTitleAndYear raw Regexp.yearRe
     = (match pre with
        | [] => t
        | _ => GoStrings.TrimSpace (GoStrings.str pre)
        end, Some (decimalValue d)))
  /\ ((forall pre d, ~ endsWithYear t pre d) ->
      Processors.parseTitleAndYear raw Regexp.yearRe = (t, None)).
Proof.
  intros t. split.
  - intros pre d Hend. pose proof Hend as [Ht Hd].
    unfold Processors.parseTitleAndYear. fold t.
    unfold Regexp.yearRe. rewrite Ht, yearReFind_group by done.
    rewrite Atoi_yearGroup by done.
    rewrite (LastIndexByte_year t pre d Hend).
    destruct pre as [|a pre].
    + simpl. by rewrite (TrimSpace_year_only t d Hend).
    + destruct (Z.ltb_spec 0 (Z.of_nat (length (a :: pre)))) as [_|Hle]; [|simpl in Hle; lia].
      unfold GoStrings.prefixTo. rewrite Nat2Z.id, Ht, take_app_length. done.
  - intros Hnot. unfold Processors.parseTitleAndYear. fold t.
    unfold Regexp.yearRe.
    destruct (Regexp.yearReFind (GoStrings.bytes t)) as [[w g]|] eqn:Hfind; [|done].
    exfalso. apply yearReFind_Some in Hfind as (pre & rest & Ht & Hg & Hrest).
    destruct (last rest) as [c|] eqn:Hc.
    + assert (last (GoStrings.bytes t) = Some c) as Hlast.
      { rewrite Ht.
        replace (pre ++ "("%char :: g ++ ")"%char :: rest)
          with ((pre ++ "("%char :: g ++ [")"%char]) ++ rest)
          by (rewrite <- !app_assoc; simpl; by rewrite <- app_assoc).
        by rewrite last_app, Hc. }
      apply TrimSpace_last in Hlast.
      apply last_Some in Hc as [rest' ->].
      rewrite forallb_app in Hrest. apply andb_true_iff in Hrest as [_ Hrest].
      simpl in Hrest. rewrite andb_true_r in Hrest.
      apply reSpace_asciiSpace in Hrest. congruence.
    + apply last_None in Hc as ->. by apply (Hnot pre g).
Qed.

Lemma parseTitleAndYear_trailing_year_witness :
  Processors.parseTitleAndYear "Toy Story (1995)" Regexp.yearRe = ("Toy Story"%string, Some 1995).
Proof.
  destruct (parseTitleAndYear_trailing_year "Toy Story (1995)") as [Hyear _].
  apply (Hyear (GoStrings.bytes "Toy Story ") (GoStrings.bytes "1995")).
  split; [vm_compute; reflexivity|]. split; [reflexivity|].
  repeat constructor.
Defined.

(** ** The tag frequencies *)

(** The contributor a record adds to the set of the pair (k, tag): the user
    of a record of at least four fields whose movie reads as k, whose tag
    normalizes to [tag], and which LoadUserTags does not pass over. *)
Definition taggingOf (mapToLower : string -> string) (k : Z) (tag : string)
    (r : csvRead) : option Z :=
  match r with
  | ReadErr => None
  | ReadRec rec =>
      if (length rec <? 4)%nat then None
      else
        let userId := (Strconv.Atoi (field rec 0)).1 in
        let movieId := (Strconv.Atoi (field rec 1)).1 in
        let t := Loaders.normalizeTag mapToLower (field rec 2) in
        if negb (String.eqb t "") && (0 <? movieId) && (0 <? userId)
        then if decide (movieId = k /\ t = tag) then Some userId else None
        else None
  end.

(** The contributors of the pair (k, tag), one for each assignment row, in
    input order. *)
Definition contributorsOf (mapToLower : string -> string) (rows : list csvRead)
    (k : Z) (tag : string) : list Z :=
  omap (taggingOf mapToLower k tag) rows.

(** The number of distinct contributors of the pair (k, tag). *)
Definition distinctContributors (mapToLower : string -> string) (rows : list csvRead)
    (k : Z) (tag : string) : Z :=
  Z.of_nat (length (remove_dups (contributorsOf mapToLower rows k tag))).

(** tagFrequency[k][tag], when both are present. *)
Definition usersOf (tagFrequency : gmap Z (gmap string (gset Z))) (k : Z) (tag : string)
  : option (gset Z) :=
  match tagFrequency !! k with
  | Some tags => tags !! tag
  | None => None
  end.

Section TagFacts.
Variable mapToLower : string -> string.

Lemma rowStep_tags_lookup m r k tag :
  usersOf (Loaders.rowStep (Loaders.userTagsStep mapToLower) 4 m r) k tag =
    match taggingOf mapToLower k tag r with
    | Some u => Some ({[u]} ∪ default ∅ (usersOf m k tag))
    | None => usersOf m k tag
    end.
Proof.
  destruct r as [|rec]; cbn [Loaders.rowStep taggingOf]; [done|].
  destruct (length rec <? 4)%nat; [done|].
  unfold Loaders.userTagsStep.
  destruct (negb _ && _ && _); [|done].
  unfold usersOf.
  set (movieId := (Strconv.Atoi (field rec 1)).1).
  set (t := Loaders.normalizeTag mapToLower (field rec 2)).
  clearbody movieId t.
  destruct (decide (movieId = k)) as [->|Hk].
  - rewrite lookup_insert_eq.
    destruct (decide (t = tag)) as [->|Ht].
    + rewrite decide_True by done. rewrite lookup_insert_eq.
      by destruct (m !! k).
    + rewrite decide_False by naive_solver. rewrite lookup_insert_ne by done.
      by destruct (m !! k).
  - rewrite decide_False by naive_solver. by rewrite lookup_insert_ne.
Qed.

Lemma foldl_tags_lookup rows : forall m k tag,
  usersOf (foldl (Loaders.rowStep (Loaders.userTagsStep mapToLower) 4) m rows) k tag =
    match contributorsOf mapToLower rows k tag with
    | [] => usersOf m k tag
    | us => Some (list_to_set us ∪ default ∅ (usersOf m k tag))
    end.
Proof.
  induction rows as [|r rows IH]; intros m k tag; [done|].
  cbn [foldl]. rewrite IH, rowStep_tags_lookup.
  unfold contributorsOf. cbn [omap list_omap].
  destruct (taggingOf mapToLower k tag r) as [u|]; [|done].
  destruct (omap (taggingOf mapToLower k tag) rows) as [|v vs]; simpl; f_equal; set_solver.
Qed.

Lemma tagFrequencyOf_lookup reads tagFrequency k tag :
  Loaders.tagFrequencyOf mapToLower reads = Some tagFrequency ->
  usersOf tagFrequency k tag =
    match contributorsOf mapToLower (tail reads) k tag with
    | [] => None
    | us => Some (list_to_set us)
    end.
Proof.
  unfold Loaders.tagFrequencyOf, Loaders.scan.
  destruct reads as [|[|hdr] rows]; try done. intros [= <-]. simpl.
  rewrite foldl_tags_lookup. unfold usersOf at 1 2. rewrite lookup_empty.
  destruct (contributorsOf mapToLower rows k tag); [done|].
  simpl. f_equal. set_solver.
Qed.

Lemma size_list_to_set_remove_dups (us : list Z) :
  size (list_to_set us : gset Z) = length (remove_dups us).
Proof.
  rewrite <- (size_list_to_set (C := gset Z) (remove_dups us)) by apply NoDup_remove_dups.
  f_equal. apply set_eq. intros x.
  by rewrite !elem_of_list_to_set, elem_of_remove_dups.
Qed.

(** Every entry of the tag list of a key has the number of distinct
    contributors of its tag as frequency. *)
Lemma tagListOf_frequency reads tagFrequency k tags e :
  Loaders.tagFrequencyOf mapToLower reads = Some tagFrequency ->
  tagFrequency !! k = Some tags ->
  e ∈ Loaders.tagListOf (map_to_list tags) ->
  tags !! Models.Tag e = Some (list_to_set (contributorsOf mapToLower (tail reads) k (Models.Tag e)))
  /\ contributorsOf mapToLower (tail reads) k (Models.Tag e) <> []
  /\ Models.Frequency e = distinctContributors mapToLower (tail reads) k (Models.Tag e).
Proof.
  intros Hscan Hk He. unfold Loaders.tagListOf in He.
  apply list_elem_of_fmap in He as [[tag users] [-> Hin]].
  apply elem_of_map_to_list in Hin. simpl.
  pose proof (tagFrequencyOf_lookup reads tagFrequency k tag Hscan) as Hlk.
  unfold usersOf in Hlk. rewrite Hk, Hin in Hlk.
  destruct (contributorsOf mapToLower (tail reads) k tag) as [|u us] eqn:Hus; [done|].
  injection Hlk as ->. split; [done|]. split; [done|].
  unfold distinctContributors. rewrite Hus.
  by rewrite <- size_list_to_set_remove_dups.
Qed.
End TagFacts.

(** ** The order of the ranked tags *)

Section StringOrder.

Lemma ltb_leb (a b : string) : String.ltb a b = negb (String.leb b a).
Proof.
  unfold String.ltb, String.leb. rewrite (String.compare_antisym a b).
  by destruct (String.compare b a).
Qed.

Lemma string_ltb_irrefl (a : string) : String.ltb a a = false.
Proof.
  rewrite ltb_leb. destruct (String.leb_total a a) as [->| ->]; done.
Qed.

Lemma string_leb_trans (a b c : string) :
  String.leb a b = true -> String.leb b c = true -> String.leb a c = true.
Proof.
  intros Hab Hbc. apply Is_true_true.
  apply (transitivity (R := String.le) (y := b)); by apply Is_true_true.
Qed.

Lemma string_ltb_trans (a b c : string) :
  String.ltb a b = true -> String.ltb b c = true -> String.ltb a c = true.
Proof.
  rewrite !ltb_leb, !negb_true_iff. intros Hba Hcb.
  destruct (String.leb c a) eqn:Hca; [|done].
  destruct (String.leb_total a b) as [Hab|Hab]; [|congruence].
  rewrite <- Hcb. symmetry. by apply (string_leb_trans c a b).
Qed.

Lemma string_ltb_negtrans (a b c : string) :
  String.ltb a b = false -> String.ltb b c = false -> String.ltb a c = false.
Proof.
  rewrite !ltb_leb, !negb_false_iff. intros Hba Hcb. by apply (string_leb_trans c b a).
Qed.

Lemma string_ltb_total (a b : string) :
  a <> b -> String.ltb a b = true \/ String.ltb b a = true.
Proof.
  intros Hne. rewrite !ltb_leb.
  destruct (String.leb b a) eqn:Hba; [|by left].
  destruct (String.leb a b) eqn:Hab; [|by right].
  exfalso. apply Hne. by apply String.leb_antisym.
Qed.

Lemma byFrequency_true (x y : Models.UserTagWithFrequency) :
  Loaders.byFrequency x y = true <->
  Models.Frequency y < Models.Frequency x
  \/ (Models.Frequency x = Models.Frequency y
      /\ String.ltb (Models.Tag x) (Models.Tag y) = true).
Proof.
  unfold Loaders.byFrequency.
  destruct (Z.eqb_spec (Models.Frequency x) (Models.Frequency y)) as [Heq|Hne]; simpl.
  - split; [intros H; by right|]. intros [H|[_ H]]; [lia|done].
  - rewrite Z.ltb_lt. split; [by left|]. intros [H|[H _]]; [done|lia].
Qed.

Lemma byFrequency_false (x y : Models.UserTagWithFrequency) :
  Loaders.byFrequency x y = false <->
  Models.Frequency x < Models.Frequency y
  \/ (Models.Frequency x = Models.Frequency y
      /\ String.ltb (Models.Tag x) (Models.Tag y) = false).
Proof.
  unfold Loaders.byFrequency.
  destruct (Z.eqb_spec (Models.Frequency x) (Models.Frequency y)) as [Heq|Hne]; simpl.
  - split; [intros H; by right|]. intros [H|[_ H]]; [lia|done].
  - rewrite Z.ltb_ge. split; [intros H; left; lia|]. intros [H|[H _]]; lia.
Qed.

Lemma byFrequency_strictWeak (l : list Models.UserTagWithFrequency) :
  Sort.strictWeakOn Loaders.byFrequency l.
Proof.
  split; [|split].
  - intros x _. apply byFrequency_false. right. split; [done|apply string_ltb_irrefl].
  - intros x y z _ _ _. rewrite !byFrequency_true.
    intros [Hxy|[Hxy Txy]] [Hyz|[Hyz Tyz]]; try (left; lia).
    right. split; [lia|]. by apply (string_ltb_trans _ (Models.Tag y)).
  - intros x y z _ _ _. rewrite !byFrequency_false.
    intros [Hxy|[Hxy Txy]] [Hyz|[Hyz Tyz]]; try (left; lia).
    right. split; [lia|]. by apply (string_ltb_negtrans _ (Models.Tag y)).
Qed.

(** Two entries with different tags are ranked one way or the other. *)
Lemma byFrequency_total (x y : Models.UserTagWithFrequency) :
  Models.Tag x <> Models.Tag y ->
  Loaders.byFrequency y x = false -> Loaders.byFrequency x y = true.
Proof.
  intros Hne. rewrite byFrequency_false, byFrequency_true.
  intros [H|[H Hyx]]; [by left|]. right. split; [done|].
  destruct (string_ltb_total (Models.Tag x) (Models.Tag y) Hne); [done|congruence].
Qed.
End StringOrder.

Lemma StronglySorted_lookup_lt {A} (R : relation A) (l : list A) : forall i j x y,
  StronglySorted R l -> (i < j)%nat -> l !! i = Some x -> l !! j = Some y -> R x y.
Proof.
  induction l as [|a l IH]; intros i j x y Hs Hij Hi Hj; [done|].
  apply StronglySorted_cons in Hs as [Ha Hs].
  destruct j as [|j]; [lia|]. destruct i as [|i]; simpl in *.
  - injection Hi as ->. rewrite Forall_forall in Ha. apply Ha.
    by apply list_elem_of_lookup_2 in Hj.
  - apply (IH i j); [done|lia|done|done].
Qed.

Lemma remove_dups_nonempty (l : list Z) :
  l <> [] -> 0 < Z.of_nat (length (remove_dups l)).
Proof.
  destruct l as [|u us]; [done|]. intros _.
  assert (u ∈ remove_dups (u :: us)) as Hu by (apply elem_of_remove_dups; left).
  destruct (remove_dups (u :: us)); [by apply elem_of_nil in Hu|]. simpl. lia.
Qed.

Section RankFacts.
Variable mapToLower : string -> string.
Context {sorter : Sort.SliceSorter}.
Hypothesis sorterOk : Sort.SliceContract sorter.

Lemma rankTags_take visit :
  Loaders.rankTags visit
  = Models.Tag <$> take 10 (Sort.Slice Loaders.byFrequency (Loaders.tagListOf visit)).
Proof.
  unfold Loaders.rankTags, Loaders.maxTags.
  destruct (Nat.ltb_spec 10 (length (Sort.Slice Loaders.byFrequency (Loaders.tagListOf visit))));
    [done|].
  by rewrite take_ge by lia.
Qed.

Lemma tagListOf_tags (visit : list (string * gset Z)) :
  Models.Tag <$> Loaders.tagListOf visit = visit.*1.
Proof. induction visit as [|[tag users] visit IH]; [done|]. simpl. by f_equal. Qed.

(** In the sorted tag list of a key an entry that stands before another has
    more contributors, or as many and the smaller tag. *)
Lemma sorted_tagList_order (tags : gmap string (gset Z)) i j ei ej :
  let sorted := Sort.Slice Loaders.byFrequency (Loaders.tagListOf (map_to_list tags)) in
  (i < j)%nat -> sorted !! i = Some ei -> sorted !! j = Some ej ->
  Models.Frequency ej < Models.Frequency ei
  \/ (Models.Frequency ei = Models.Frequency ej
      /\ String.ltb (Models.Tag ei) (Models.Tag ej) = true).
Proof.
  intros sorted Hij Hi Hj.
  pose proof (proj1 sorterOk _ Loaders.byFrequency
                (Loaders.tagListOf (map_to_list tags))) as Hperm. fold sorted in Hperm.
  pose proof (proj2 sorterOk _ Loaders.byFrequency _
                (byFrequency_strictWeak (Loaders.tagListOf (map_to_list tags)))) as Hsorted.
  fold sorted in Hsorted. unfold Sort.sortedBy in Hsorted.
  apply byFrequency_true. apply byFrequency_total.
  - assert (NoDup (Models.Tag <$> sorted)) as Hnd.
    { rewrite Hperm, tagListOf_tags. apply NoDup_fst_map_to_list. }
    intros Heq.
    assert (i = j); [|lia].
    apply (NoDup_lookup _ i j (Models.Tag ei) Hnd).
    + by rewrite list_lookup_fmap, Hi.
    + by rewrite list_lookup_fmap, Hj, Heq.
  - by apply (StronglySorted_lookup_lt _ sorted i j ei ej Hsorted).
Qed.
Lemma NoDup_fmap_eq {A B} (f : A -> B) (l : list A) x y :
  NoDup (f <$> l) -> x ∈ l -> y ∈ l -> f x = f y -> x = y.
Proof.
  intros Hnd Hx Hy Hf.
  apply list_elem_of_lookup_1 in Hx as [i Hi]. apply list_elem_of_lookup_1 in Hy as [j Hj].
  assert (i = j) as ->; [|congruence].
  apply (NoDup_lookup _ i j (f x) Hnd).
  - by rewrite list_lookup_fmap, Hi.
  - by rewrite list_lookup_fmap, Hj, Hf.
Qed.

(** The ranked list does not depend on the order in which the range loop
    meets the tags of a key. *)
Lemma rankTags_visit_order (tags : gmap string (gset Z)) (visit : list (string * gset Z)) :
  visit ≡ₚ map_to_list tags ->
  Loaders.rankTags visit = Loaders.rankTags (map_to_list tags).
Proof.
  intros Hvisit. rewrite !rankTags_take. do 2 f_equal.
  destruct sorterOk as [Hperm Hsorted].
  assert (Loaders.tagListOf visit ≡ₚ Loaders.tagListOf (map_to_list tags)) as Hlists.
  { unfold Loaders.tagListOf. by apply fmap_Permutation. }
  apply (StronglySorted_unique_strong (fun x y => Loaders.byFrequency y x = false)).
  - intros x y Hx Hy Hyx Hxy.
    assert (NoDup (Models.Tag <$> Sort.Slice Loaders.byFrequency (Loaders.tagListOf visit)))
      as Hnd.
    { rewrite Hperm, Hlists, tagListOf_tags. apply NoDup_fst_map_to_list. }
    rewrite Hperm, <- Hlists, <- (Hperm _ Loaders.byFrequency) in Hy.
    apply (NoDup_fmap_eq Models.Tag _ x y Hnd Hx Hy).
    destruct (decide (Models.Tag x = Models.Tag y)) as [|Hne]; [done|].
    apply (byFrequency_total x y Hne) in Hyx. congruence.
  - apply Hsorted, byFrequency_strictWeak.
  - apply Hsorted, byFrequency_strictWeak.
  - by rewrite !Hperm.
Qed.
End RankFacts.

(** C2. For every key and every entry of the tag list LoadUserTags builds
    for it, the frequency of the entry is the number of distinct
    contributors among the rows that assign the entry's normalized tag to
    the key (the size of the set of their identifiers), and every tag
    assigned to the key has an entry. A further row by which a contributor
    assigns a tag to a key once more leaves the set, and so the count,
    as it was. *)
Theorem LoadUserTags_frequency_is_distinct_contributors
    (mapToLower : string -> string) (reads : list csvRead)
    (tagFrequency : gmap Z (gmap string (gset Z))) (k : Z) (tags : gmap string (gset Z)) :
  Loaders.tagFrequencyOf mapToLower reads = Some tagFrequency ->
  tagFrequency !! k = Some tags ->
  (forall e, e ∈ Loaders.tagListOf (map_to_list tags) ->
     Models.Frequency e
     = Z.of_nat (size (list_to_set (contributorsOf mapToLower (tail reads) k (Models.Tag e))
                       : gset Z))
     /\ Models.Frequency e = distinctContributors mapToLower (tail reads) k (Models.Tag e))
  /\ (forall tag, contributorsOf mapToLower (tail reads) k tag <> [] ->
        exists e, e ∈ Loaders.tagListOf (map_to_list tags) /\ Models.Tag e = tag)
  /\ (forall r tag u tagFrequency',
        taggingOf mapToLower k tag r = Some u ->
        u ∈ contributorsOf mapToLower (tail reads) k tag ->
        Loaders.tagFrequencyOf mapToLower (reads ++ [r]) = Some tagFrequency' ->
        usersOf tagFrequency' k tag = usersOf tagFrequency k tag
        /\ distinctContributors mapToLower (tail (reads ++ [r])) k tag
           = distinctContributors mapToLower (tail reads) k tag).
Proof.
  intros Hscan Hk. split; [|split].
  - intros e He.
    destruct (tagListOf_frequency mapToLower reads tagFrequency k tags e Hscan Hk He)
      as (_ & _ & Hf).
    split; [|done]. rewrite Hf. unfold distinctContributors.
    by rewrite size_list_to_set_remove_dups.
  - intros tag Hne.
    pose proof (tagFrequencyOf_lookup mapToLower reads tagFrequency k tag Hscan) as Hlk.
    unfold usersOf in Hlk. rewrite Hk in Hlk.
    destruct (contributorsOf mapToLower (tail reads) k tag) as [|u us]; [done|].
    exists {| Models.Tag := tag; Models.Frequency := Z.of_nat (size (list_to_set (u :: us) : gset Z)) |}.
    split; [|done]. unfold Loaders.tagListOf. apply list_elem_of_fmap.
    exists (tag, list_to_set (u :: us)). split; [done|]. by apply elem_of_map_to_list.
  - intros r tag u tagFrequency' Hr Hu Hscan'.
    assert (tail (reads ++ [r]) = tail reads ++ [r]) as Htail.
    { destruct reads; [done|done]. }
    assert (contributorsOf mapToLower (tail reads ++ [r]) k tag
            = contributorsOf mapToLower (tail reads) k tag ++ [u]) as Happ.
    { unfold contributorsOf. rewrite omap_app. simpl. by rewrite Hr. }
    assert ((list_to_set (contributorsOf mapToLower (tail reads) k tag ++ [u]) : gset Z)
            = list_to_set (contributorsOf mapToLower (tail reads) k tag)) as Hset.
    { apply set_eq. intros x. rewrite !elem_of_list_to_set, elem_of_app, list_elem_of_singleton.
      naive_solver. }
    split.
    + rewrite (tagFrequencyOf_lookup mapToLower _ _ k tag Hscan').
      rewrite (tagFrequencyOf_lookup mapToLower _ _ k tag Hscan).
      rewrite Htail, Happ.
      destruct (contributorsOf mapToLower (tail reads) k tag) as [|v vs] eqn:Hus.
      { by apply elem_of_nil in Hu. }
      rewrite <- Hset. done.
    + unfold distinctContributors. rewrite Htail, Happ.
      rewrite <- !size_list_to_set_remove_dups. by rewrite Hset.
Qed.

(** C3. For every key, the list LoadUserTags returns holds at most 10
    tags, each with at least one contributor; a tag that stands before
    another in it has more distinct contributors, or as many and is the
    smaller one in the byte-wise lexicographic order; and every tag of the
    key that is left out ranks, in the same way, after each tag that is
    kept. This holds for every sort.Slice that keeps its contract and
    whatever the order in which the tags of the key are met. *)
Theorem LoadUserTags_top_10_ranked
    {sorter : Sort.SliceSorter} (mapToLower : string -> string) (reads : list csvRead)
    (result : gmap Z (list string)) (k : Z) (ranked : list string) :
  Sort.SliceContract sorter ->
  Loaders.LoadUserTags mapToLower reads = Some result ->
  result !! k = Some ranked ->
  let count := distinctContributors mapToLower (tail reads) k in
  (length ranked <= 10)%nat
  /\ (forall tag, tag ∈ ranked -> 0 < count tag)
  /\ (forall i j ti tj, (i < j)%nat -> ranked !! i = Some ti -> ranked !! j = Some tj ->
        count tj < count ti \/ (count ti = count tj /\ String.ltb ti tj = true))
  /\ (forall tag tag', tag ∈ ranked -> tag' ∉ ranked -> 0 < count tag' ->
        count tag' < count tag \/ (count tag = count tag' /\ String.ltb tag tag' = true))
  /\ (forall tagFrequency tags visit,
        Loaders.tagFrequencyOf mapToLower reads = Some tagFrequency ->
        tagFrequency !! k = Some tags -> visit ≡ₚ map_to_list tags ->
        Loaders.rankTags visit = ranked).
Proof.
  intros Hsorter Hload Hk count. unfold Loaders.LoadUserTags in Hload.
  destruct (Loaders.tagFrequencyOf mapToLower reads) as [tagFrequency|] eqn:Hscan; [|done].
  injection Hload as <-. rewrite lookup_fmap in Hk.
  destruct (tagFrequency !! k) as [tags|] eqn:Htags; [|done].
  injection Hk as <-. rewrite rankTags_take.
  set (sorted := Sort.Slice Loaders.byFrequency (Loaders.tagListOf (map_to_list tags))).
  pose proof (proj1 Hsorter _ Loaders.byFrequency
                (Loaders.tagListOf (map_to_list tags))) as Hperm. fold sorted in Hperm.
  assert (forall e, e ∈ sorted ->
            contributorsOf mapToLower (tail reads) k (Models.Tag e) <> []
            /\ Models.Frequency e = count (Models.Tag e)) as Hfreq.
  { intros e He. rewrite Hperm in He.
    by destruct (tagListOf_frequency mapToLower reads tagFrequency k tags e Hscan Htags He)
      as (_ & ? & ?). }
  assert (forall i t, (Models.Tag <$> take 10 sorted) !! i = Some t ->
            (i < 10)%nat /\ exists e, sorted !! i = Some e /\ Models.Tag e = t) as Hkept.
  { intros i t Hi. apply list_lookup_fmap_Some in Hi as (e & -> & Hi).
    apply lookup_take_Some in Hi as [Hi Hlt]. eauto. }
  assert (forall i j ei ej, (i < j)%nat -> sorted !! i = Some ei -> sorted !! j = Some ej ->
            count (Models.Tag ej) < count (Models.Tag ei)
            \/ (count (Models.Tag ei) = count (Models.Tag ej)
                /\ String.ltb (Models.Tag ei) (Models.Tag ej) = true)) as Horder.
  { intros i j ei ej Hij Hi Hj.
    destruct (Hfreq ei) as [_ <-]; [by apply list_elem_of_lookup_2 in Hi|].
    destruct (Hfreq ej) as [_ <-]; [by apply list_elem_of_lookup_2 in Hj|].
    by apply (sorted_tagList_order Hsorter tags i j). }
  split; [|split; [|split; [|split]]].
  - rewrite length_fmap, length_take. lia.
  - intros tag Htag. apply list_elem_of_lookup_1 in Htag as [i Hi].
    apply Hkept in Hi as (_ & e & He & <-).
    destruct (Hfreq e) as [Hne _]; [by apply list_elem_of_lookup_2 in He|].
    by apply remove_dups_nonempty.
  - intros i j ti tj Hij Hi Hj.
    apply Hkept in Hi as (_ & ei & Hi & <-). apply Hkept in Hj as (_ & ej & Hj & <-).
    by apply (Horder i j).
  - intros tag tag' Htag Htag' Hpos.
    apply list_elem_of_lookup_1 in Htag as [i Hi].
    apply Hkept in Hi as (Hi10 & e & He & <-).
    assert (contributorsOf mapToLower (tail reads) k tag' <> []) as Hne.
    { intros Hnil. unfold count, distinctContributors in Hpos. rewrite Hnil in Hpos.
      simpl in Hpos. lia. }
    pose proof (tagFrequencyOf_lookup mapToLower reads tagFrequency k tag' Hscan) as Hlk.
    unfold usersOf in Hlk. rewrite Htags in Hlk.
    destruct (contributorsOf mapToLower (tail reads) k tag') as [|u us]; [done|].
    assert ({| Models.Tag := tag'; Models.Frequency := Z.of_nat (size (list_to_set (u :: us) : gset Z)) |}
              ∈ sorted) as He'.
    { rewrite Hperm. unfold Loaders.tagListOf. apply list_elem_of_fmap.
      exists (tag', list_to_set (u :: us)). split; [done|]. by apply elem_of_map_to_list. }
    apply list_elem_of_lookup_1 in He' as [j Hj].
    destruct (Nat.lt_ge_cases j 10) as [Hj10|Hj10].
    + exfalso. apply Htag'. apply list_elem_of_lookup. exists j.
      rewrite list_lookup_fmap, lookup_take_lt by done. by rewrite Hj.
    + apply (Horder i j e _ ltac:(lia) He Hj).
  - intros tagFrequency' tags' visit Hscan' Htags' Hvisit.
    injection Hscan' as <-.
    rewrite Htags in Htags'. injection Htags' as <-.
    rewrite (rankTags_visit_order Hsorter tags visit Hvisit). apply rankTags_take.
Qed.

(** ** The order of float64 *)

(** A key that orders the floats that are no NaN: the negative infinity,
    the negative finite floats, the zeros, the positive finite floats, the
    positive infinity. *)
Definition sfKey (x : spec_float) : option (Z * Z * Z) :=
  match x with
  | S754_nan => None
  | S754_infinity true => Some (-2, 0, 0)
  | S754_infinity false => Some (2, 0, 0)
  | S754_zero _ => Some (0, 0, 0)
  | S754_finite false m e => Some (1, e, Z.pos m)
  | S754_finite true m e => Some (-1, - e, - Z.pos m)
  end.

Definition floatKey (x : Float64.float64) : option (Z * Z * Z) := sfKey (Prim2SF x).

Definition keyLt (a b : Z * Z * Z) : Prop :=
  a.1.1 < b.1.1 \/ (a.1.1 = b.1.1 /\ (a.1.2 < b.1.2 \/ (a.1.2 = b.1.2 /\ a.2 < b.2))).

Ltac float_cases :=
  repeat match goal with
         | s : bool |- _ => destruct s
         | |- context [Z.compare ?a ?b] => destruct (Z.compare_spec a b)
         | |- context [Pos.compare_cont Eq ?a ?b] =>
             change (Pos.compare_cont Eq a b) with (Pos.compare a b);
             destruct (Pos.compare_spec a b)
         end;
  simpl; split; intros; try discriminate; try reflexivity; try lia.

Lemma SFltb_key x y kx ky :
  sfKey x = Some kx -> sfKey y = Some ky -> (SFltb x y = true <-> keyLt kx ky).
Proof.
  unfold keyLt, SFltb.
  destruct x as [sx|sx| |sx mx ex], y as [sy|sy| |sy my ey]; simpl;
    intros Hx Hy; try discriminate; float_cases; simplify_eq; simpl in *; lia.
Qed.

Lemma SFleb_key x y kx ky :
  sfKey x = Some kx -> sfKey y = Some ky -> (SFleb x y = true <-> ~ keyLt ky kx).
Proof.
  unfold keyLt, SFleb.
  destruct x as [sx|sx| |sx mx ex], y as [sy|sy| |sy my ey]; simpl;
    intros Hx Hy; try discriminate; float_cases; simplify_eq; simpl in *; lia.
Qed.

Lemma SFleb_not_nan x y :
  SFleb x y = true -> is_Some (sfKey x) /\ is_Some (sfKey y).
Proof.
  unfold SFleb.
  destruct x as [[]|[]| |[] mx ex], y as [[]|[]| |[] my ey]; simpl; intros H;
    try discriminate; split; eauto.
Qed.

Section FloatOrder.
Import Float64.

Lemma ge_not_nan x y : ge x y = true -> is_Some (floatKey x) /\ is_Some (floatKey y).
Proof.
  unfold ge. rewrite FloatAxioms.leb_spec. intros H.
  apply SFleb_not_nan in H. tauto.
Qed.

Lemma gt_key x y kx ky :
  floatKey x = Some kx -> floatKey y = Some ky -> (gt x y = true <-> keyLt ky kx).
Proof. unfold gt. rewrite FloatAxioms.ltb_spec. intros Hx Hy. by apply SFltb_key. Qed.

Lemma ge_key x y kx ky :
  floatKey x = Some kx -> floatKey y = Some ky -> (ge x y = true <-> ~ keyLt kx ky).
Proof. unfold ge. rewrite FloatAxioms.leb_spec. intros Hx Hy. by apply SFleb_key. Qed.

(** Among floats that are no NaN, not less means greater or equal. *)
Lemma not_gt_ge x y :
  is_Some (floatKey x) -> is_Some (floatKey y) -> gt y x = false -> ge x y = true.
Proof.
  intros [kx Hx] [ky Hy] Hgt. apply (ge_key x y kx ky Hx Hy).
  intros Hlt. apply (gt_key y x ky kx Hy Hx) in Hlt. congruence.
Qed.

(** The comparison of LoadGenomeScores is a strict weak ordering of
    entries whose relevance is no NaN. *)
Lemma byRelevance_strictWeak (l : list Models.GenomeTag) :
  Forall (fun g => is_Some (floatKey (Models.GenomeTag_Relevance g))) l ->
  Sort.strictWeakOn Loaders.byRelevance l.
Proof.
  rewrite Forall_forall. intros Hl. unfold Loaders.byRelevance.
  split; [|split].
  - intros x Hx. destruct (Hl x Hx) as [kx Hkx].
    destruct (gt _ _) eqn:Hgt; [|done].
    apply (gt_key _ _ kx kx Hkx Hkx) in Hgt. unfold keyLt in Hgt. lia.
  - intros x y z Hx Hy Hz.
    destruct (Hl x Hx) as [kx Hkx], (Hl y Hy) as [ky Hky], (Hl z Hz) as [kz Hkz].
    rewrite (gt_key _ _ kx ky Hkx Hky), (gt_key _ _ ky kz Hky Hkz), (gt_key _ _ kx kz Hkx Hkz).
    unfold keyLt. lia.
  - intros x y z Hx Hy Hz.
    destruct (Hl x Hx) as [kx Hkx], (Hl y Hy) as [ky Hky], (Hl z Hz) as [kz Hkz].
    rewrite <- !not_true_iff_false.
    rewrite (gt_key _ _ kx ky Hkx Hky), (gt_key _ _ ky kz Hky Hkz), (gt_key _ _ kx kz Hkx Hkz).
    unfold keyLt. lia.
Qed.
End FloatOrder.

(** ** The relevance filter *)

(** The entry a genome score record stands for, with its key: [None] for
    a record whose score is below the threshold or whose tag identifier
    has no label. *)
Definition genomeOf (ParseFloat : string -> Float64.float64 * option Strconv.numError)
    (genomeTagsMap : gmap Z string) (minRelevance : Float64.float64) (rec : list string)
  : option (Z * Models.GenomeTag) :=
  let movieId := (Strconv.Atoi (field rec 0)).1 in
  let tagId := (Strconv.Atoi (field rec 1)).1 in
  let relevance := (ParseFloat (field rec 2)).1 in
  if Float64.ge relevance minRelevance then
    match genomeTagsMap !! tagId with
    | Some tagName =>
        Some (movieId, {| Models.GenomeTag_Tag := tagName;
                          Models.GenomeTag_Relevance := relevance |})
    | None => None
    end
  else None.

(** The entries of key [k] that pass the filter, in input order. *)
Definition qualifyingOf (ParseFloat : string -> Float64.float64 * option Strconv.numError)
    (genomeTagsMap : gmap Z string) (minRelevance : Float64.float64)
    (rows : list csvRead) (k : Z) : list Models.GenomeTag :=
  omap (contribution (genomeOf ParseFloat genomeTagsMap minRelevance) 3 k) rows.

Section RelevanceFacts.
Variable ParseFloat : string -> Float64.float64 * option Strconv.numError.
Context {sorter : Sort.SliceSorter}.

Lemma genomeScoresStep_group genomeTagsMap minRelevance m rec :
  Loaders.genomeScoresStep ParseFloat genomeTagsMap minRelevance m rec
  = groupStep (genomeOf ParseFloat genomeTagsMap minRelevance) m rec.
Proof.
  unfold Loaders.genomeScoresStep, groupStep, genomeOf.
  destruct (Float64.ge _ _); [|done]. by destruct (genomeTagsMap !! _).
Qed.

Lemma LoadGenomeScores_lookup reads genomeTagsMap minRelevance scores k :
  Loaders.LoadGenomeScores ParseFloat reads genomeTagsMap minRelevance = Some scores ->
  scores !! k =
    match qualifyingOf ParseFloat genomeTagsMap minRelevance (tail reads) k with
    | [] => None
    | vs => Some (Sort.Slice Loaders.byRelevance vs)
    end.
Proof.
  unfold Loaders.LoadGenomeScores, Loaders.scan.
  destruct reads as [|[|hdr] rows]; try done. intros [= <-]. simpl.
  rewrite lookup_fmap.
  rewrite (foldl_ext _ (Loaders.rowStep
             (groupStep (genomeOf ParseFloat genomeTagsMap minRelevance)) 3)).
  - rewrite foldl_group_lookup, lookup_empty. unfold qualifyingOf.
    by destruct (omap _ rows).
  - intros m [|rec]; simpl; [done|].
    destruct (length rec <? 3)%nat; [done|]. apply genomeScoresStep_group.
Qed.

Lemma qualifyingOf_elem genomeTagsMap minRelevance rows k g :
  g ∈ qualifyingOf ParseFloat genomeTagsMap minRelevance rows k ->
  Float64.ge (Models.GenomeTag_Relevance g) minRelevance = true
  /\ exists tagId, genomeTagsMap !! tagId = Some (Models.GenomeTag_Tag g).
Proof.
  unfold qualifyingOf. rewrite list_elem_of_omap. intros (r & _ & Hr).
  destruct r as [|rec]; simpl in Hr; [done|].
  destruct (length rec <? 3)%nat; [done|].
  unfold genomeOf in Hr.
  destruct (Float64.ge _ _) eqn:Hge; [|done].
  destruct (genomeTagsMap !! _) as [tagName|] eqn:Htag; [|done].
  case_decide; [|done]. injection Hr as <-. simpl. eauto.
Qed.
End RelevanceFacts.

(** C5. For every key, the list LoadGenomeScores returns is a
    rearrangement of the entries of the key whose score is greater than or
    equal to the threshold and whose tag identifier has a label, in
    particular every entry of the list has such a score and a label; and
    the list is sorted by score, descending: an entry that stands before
    another has a score greater than or equal to the other's. This holds
    for every sort.Slice that keeps its contract. *)
Theorem LoadGenomeScores_threshold_and_order
    {sorter : Sort.SliceSorter}
    (ParseFloat : string -> Float64.float64 * option Strconv.numError)
    (reads : list csvRead) (genomeTagsMap : gmap Z string) (minRelevance : Float64.float64)
    (scores : gmap Z (list Models.GenomeTag)) (k : Z) (retained : list Models.GenomeTag) :
  Sort.SliceContract sorter ->
  Loaders.LoadGenomeScores ParseFloat reads genomeTagsMap minRelevance = Some scores ->
  scores !! k = Some retained ->
  retained ≡ₚ qualifyingOf ParseFloat genomeTagsMap minRelevance (tail reads) k
  /\ (forall g, g ∈ retained ->
        Float64.ge (Models.GenomeTag_Relevance g) minRelevance = true
        /\ exists tagId, genomeTagsMap !! tagId = Some (Models.GenomeTag_Tag g))
  /\ (forall i j gi gj, (i < j)%nat -> retained !! i = Some gi -> retained !! j = Some gj ->
        Float64.ge (Models.GenomeTag_Relevance gi) (Models.GenomeTag_Relevance gj) = true).
Proof.
  intros Hsorter Hload Hk.
  rewrite (LoadGenomeScores_lookup ParseFloat reads genomeTagsMap minRelevance scores k Hload)
    in Hk.
  set (vs := qualifyingOf ParseFloat genomeTagsMap minRelevance (tail reads) k) in *.
  assert (retained = Sort.Slice Loaders.byRelevance vs) as ->.
  { destruct vs; [done|]. by injection Hk as <-. }
  pose proof (proj1 Hsorter _ Loaders.byRelevance vs) as Hperm.
  assert (forall g, g ∈ Sort.Slice Loaders.byRelevance vs ->
            Float64.ge (Models.GenomeTag_Relevance g) minRelevance = true
            /\ exists tagId, genomeTagsMap !! tagId = Some (Models.GenomeTag_Tag g)) as Hall.
  { intros g Hg. rewrite Hperm in Hg. by apply qualifyingOf_elem in Hg. }
  split; [done|]. split; [done|].
  intros i j gi gj Hij Hi Hj.
  assert (Sort.sortedBy Loaders.byRelevance (Sort.Slice Loaders.byRelevance vs)) as Hsorted.
  { apply (proj2 Hsorter), byRelevance_strictWeak. rewrite Forall_forall.
    intros g Hg. rewrite <- Hperm in Hg. apply Hall in Hg as [Hge _].
    by apply ge_not_nan in Hge as [? _]. }
  apply not_gt_ge.
  - apply list_elem_of_lookup_2, Hall in Hi as [Hge _]. by apply ge_not_nan in Hge as [? _].
  - apply list_elem_of_lookup_2, Hall in Hj as [Hge _]. by apply ge_not_nan in Hge as [? _].
  - apply (StronglySorted_lookup_lt _ _ i j gi gj Hsorted Hij Hi Hj).
Qed.

(** ** Sample files *)

(** The tag rows of the third end-to-end scenario: users 1 and 2 tag
    movie 5, user 1 twice. *)
Definition sampleTags : list csvRead :=
  [ReadRec ["userId"; "movieId"; "tag"; "timestamp"];
   ReadRec ["1"; "5"; "Pixar"; "1139045764"];
   ReadRec ["2"; "5"; "pixar "; "1139045765"];
   ReadRec ["1"; "5"; "pixar"; "1139045766"]]%string.

(** Tag rows with three tags for movie 5. *)
Definition sampleRankedTags : list csvRead :=
  [ReadRec ["userId"; "movieId"; "tag"; "timestamp"];
   ReadRec ["1"; "5"; "zed"; "1"];
   ReadRec ["1"; "5"; "Pixar"; "2"];
   ReadRec ["2"; "5"; "pixar"; "3"];
   ReadRec ["3"; "5"; "animation"; "4"];
   ReadRec ["0"; "5"; "ghost"; "5"]]%string.

(** Genome scores of movie 1, and the labels of the tags 1, 2 and 3. *)
Definition sampleScores : list csvRead :=
  [ReadRec ["movieId"; "tagId"; "relevance"];
   ReadRec ["1"; "1"; "0.6"];
   ReadRec ["1"; "2"; "0.9"];
   ReadRec ["1"; "3"; "0.2"];
   ReadRec ["1"; "9"; "0.99"]]%string.

Definition sampleLabels : gmap Z string :=
  <[1 := "dark"%string]> (<[2 := "pixar"%string]> (<[3 := "slow"%string]> ∅)).

(** A similarity file with 25 rows for source index 10, to the targets 1
    to 25 with rising weights, and the item map that maps movie 100 + i to
    index i. *)
Definition sampleSimilarities : list csvRead :=
  ReadRec ["iIdx"; "jIdx"; "sim"]%string
  :: map (fun j => ReadRec ["10"%string; Strconv.formatInt j;
                            ("0." +:+ Strconv.formatInt (100 + j))%string])
         (seqZ 1 25).

Definition sampleItemMap : list (Z * Z) := map (fun i => (100 + i, i)) (seqZ 0 30).

Example LoadUserTags_scenario_3 :
  (map_to_list <$> Loaders.LoadUserTags (fun s => s) sampleTags) = Some [(5, ["pixar"%string])]
  /\ distinctContributors (fun s => s) (tail sampleTags) 5 "pixar" = 2.
Proof. split; vm_compute; reflexivity. Qed.

Lemma LoadUserTags_frequency_is_distinct_contributors_witness :
  Models.Frequency {| Models.Tag := "pixar"; Models.Frequency := 2 |}
  = distinctContributors (fun s => s) (tail sampleTags) 5 "pixar".
Proof.
  pose (tagFrequency := default ∅ (Loaders.tagFrequencyOf (fun s => s) sampleTags)).
  pose (tags := default ∅ (tagFrequency !! 5)).
  destruct (LoadUserTags_frequency_is_distinct_contributors (fun s => s) sampleTags
              tagFrequency 5 tags) as (Hfreq & _ & _);
    [vm_compute; reflexivity|vm_compute; reflexivity|].
  apply (Hfreq {| Models.Tag := "pixar"; Models.Frequency := 2 |}).
  apply list_elem_of_lookup. exists 0%nat. vm_compute. reflexivity.
Defined.

Lemma LoadUserTags_top_10_ranked_witness :
  Loaders.LoadUserTags (fun s => s) sampleRankedTags ≫= (.!! 5)
  = Some ["pixar"; "animation"; "zed"]%string
  /\ (distinctContributors (fun s => s) (tail sampleRankedTags) 5 "animation"
      < distinctContributors (fun s => s) (tail sampleRankedTags) 5 "pixar"
      \/ (distinctContributors (fun s => s) (tail sampleRankedTags) 5 "pixar"
          = distinctContributors (fun s => s) (tail sampleRankedTags) 5 "animation"
          /\ String.ltb "pixar" "animation" = true)).
Proof.
  split; [vm_compute; reflexivity|].
  pose (result := default ∅ (Loaders.LoadUserTags (fun s => s) sampleRankedTags)).
  destruct (LoadUserTags_top_10_ranked (fun s => s) sampleRankedTags result 5
              ["pixar"; "animation"; "zed"]%string insertionSorter_contract)
    as (_ & _ & Horder & _); [vm_compute; reflexivity|vm_compute; reflexivity|].
  apply (Horder 0%nat 1%nat); [lia|reflexivity|reflexivity].
Defined.

Lemma LoadGenomeScores_threshold_and_order_witness :
  (Models.GenomeTag_Tag <$>
     default [] (Loaders.LoadGenomeScores PlainFloat.ParseFloat sampleScores sampleLabels 0.5%float
                 ≫= (.!! 1)))
  = ["pixar"; "dark"]%string
  /\ Float64.ge (PlainFloat.ParseFloat "0.9").1 (PlainFloat.ParseFloat "0.6").1 = true.
Proof.
  split; [vm_compute; reflexivity|].
  pose (scores := default ∅ (Loaders.LoadGenomeScores PlainFloat.ParseFloat
                               sampleScores sampleLabels 0.5%float)).
  pose (retained := default [] (scores !! 1)).
  destruct (LoadGenomeScores_threshold_and_order PlainFloat.ParseFloat sampleScores
              sampleLabels 0.5%float scores 1 retained insertionSorter_contract)
    as (_ & _ & Horder); [vm_compute; reflexivity|vm_compute; reflexivity|].
  apply (Horder 0%nat 1%nat
           {| Models.GenomeTag_Tag := "pixar"; Models.GenomeTag_Relevance := (PlainFloat.ParseFloat "0.9").1 |}
           {| Models.GenomeTag_Tag := "dark"; Models.GenomeTag_Relevance := (PlainFloat.ParseFloat "0.6").1 |});
    [lia|vm_compute; reflexivity|vm_compute; reflexivity].
Defined.


(** The document written for source index 10 of the sample file. *)
Definition sampleDoc : Models.SimilarityDoc :=
  Processors.similarityDoc (Loaders.reverseMapOf sampleItemMap) "2024-01-01T00:00:00Z" 10
    (default []
       (default ∅ (Loaders.LoadSimilarities PlainFloat.ParseFloat sampleSimilarities sampleItemMap)
        !! 10)).

Lemma ProcessSimilarities_first_20_in_input_order_witness :
  Models.Neighbor_IIdx <$> Models.Neighbors sampleDoc = seqZ 1 20
  /\ Models.Neighbor_MovieID <$> Models.Neighbors sampleDoc = seqZ 101 20
  /\ Models.K sampleDoc = 20.
Proof.
  pose (sims := default ∅ (Loaders.LoadSimilarities PlainFloat.ParseFloat
                             sampleSimilarities sampleItemMap)).
  destruct (ProcessSimilarities_first_20_in_input_order PlainFloat.ParseFloat
              sampleSimilarities sampleItemMap "2024-01-01T00:00:00Z" sims)
    as (_ & _ & Hcut & _); [vm_compute; reflexivity|].
  destruct (Hcut 10 sampleDoc) as (Hn & _ & HK).
  - apply Nat.ltb_lt. vm_compute. reflexivity.
  - apply list_elem_of_lookup. exists 0%nat. vm_compute. reflexivity.
  - reflexivity.
  - split; [|split; [|exact HK]]; rewrite Hn; vm_compute; reflexivity.
Defined.

(** A neighbor whose weight is not finite: the document of its source
    index is not written, an empty line is. *)
Example ProcessSimilarities_infinite_weight :
  Processors.ProcessSimilarities
    {[ 10 := [{| Models.Neighbor_MovieID := 101; Models.Neighbor_IIdx := 1;
                 Models.Sim := PrimFloat.infinity |}] ]} [(101, 1)] "2024-01-01T00:00:00Z"
  = ([None], 1).
Proof. vm_compute. reflexivity. Qed.
